(** * Field dependency rebuilder

A shallow embedding of
[baserow/contrib/database/fields/dependencies/depedency_rebuilder.py]:
breaking, repairing and rebuilding the [FieldDependency] rows of a
field, over an explicit model of the [FieldDependency] table. *)

From stdpp Require Import base list strings.

Set Default Proof Using "Type".

(** ** Data model *)

(** A [Field] row as the ORM hands it to the rebuilder.  [link_row_table]
    is [Some t] exactly for instances of [LinkRowField]; every other model
    class has [None]. *)
Module Field.
Record t : Type := mk {
  id : nat;
  name : string;
  table : nat;
  link_row_table : option nat;
}.

Definition isinstance_LinkRowField (f : t) : bool :=
  match link_row_table f with Some _ => true | None => false end.
End Field.

#[global] Instance Field_eq_dec : EqDecision Field.t.
Proof. solve_decision. Defined.

(** The canonical key two dependencies are compared by. *)
Inductive DepKey : Type :=
  | ResolvedKey (dependant_id dependency_id : nat) (via_id : option nat)
  | BrokenKey (dependant_id : nat) (via_id : option nat)
      (broken_reference_field_name : option string).

#[global] Instance DepKey_eq_dec : EqDecision DepKey.
Proof. solve_decision. Defined.

(** A [FieldDependency] object.  [id] is [None] until the object is saved;
    the foreign keys are carried dereferenced, as [dep.dependant],
    [dep.dependency] and [dep.via] are in the source. *)
Module FieldDependency.
Record t : Type := mk {
  id : option nat;
  dependant : Field.t;
  dependency : option Field.t;
  via : option Field.t;
  broken_reference_field_name : option string;
}.

(** [FieldDependency(dependant=.., dependency=.., via=..,
    broken_reference_field_name=..)]: an unsaved object. *)
Definition new (dependant : Field.t) (dependency via : option Field.t)
    (broken_reference_field_name : option string) : t :=
  mk None dependant dependency via broken_reference_field_name.

Definition set_id (i : option nat) (d : t) : t :=
  mk i (dependant d) (dependency d) (via d) (broken_reference_field_name d).

(** The columns written by [update(...)] and [bulk_update(...)]. *)
Definition set_dependency (f : option Field.t) (n : option string) (d : t) : t :=
  mk (id d) (dependant d) f (via d) n.

Definition set_dependency_and_via (f : option Field.t) (n : option string)
    (v : option Field.t) (d : t) : t :=
  mk (id d) (dependant d) f v n.

(** Modelled from the spec: [FieldDependency.__str__] lives in
    [dependencies/models.py], which is not part of the sources at hand.
    The spec gives the key as [dependant_id:dependency_id:via_id] for a
    resolved edge and [dependant_id:via_id:broken_reference_field_name]
    for a broken one, and asks for a composite key with that equality;
    the row id takes no part in it. *)
Definition str (d : t) : DepKey :=
  match dependency d with
  | Some f => ResolvedKey (Field.id (dependant d)) (Field.id f) (Field.id <$> via d)
  | None =>
      BrokenKey (Field.id (dependant d)) (Field.id <$> via d)
        (broken_reference_field_name d)
  end.
End FieldDependency.

#[global] Instance FieldDependency_eq_dec : EqDecision FieldDependency.t.
Proof. solve_decision. Defined.

(** A dependency descriptor as [get_field_dependencies] yields it: a bare
    field name, or a [(via_field_name, dependency)] tuple. *)
Inductive Descriptor : Type :=
  | DName (dependency : string)
  | DTuple (via_field_name dependency : string).

#[global] Instance Descriptor_eq_dec : EqDecision Descriptor.
Proof. solve_decision. Defined.

(** The [FieldCache] is used through [lookup_by_name] only. *)
Record FieldCache : Type := {
  lookup_by_name : nat -> string -> option Field.t;
}.

Inductive Exc : Type :=
  | SelfReferenceFieldDependencyError
  | CircularFieldDependencyError.

#[global] Instance Exc_eq_dec : EqDecision Exc.
Proof. solve_decision. Defined.

(** ** Python dictionaries

    An insertion-ordered dictionary: assigning to a key that is present
    replaces the value where the key sits, a new key goes to the end. *)
Section PyDict.
Context {K V : Type} `{EqDecision K}.

Fixpoint dict_setitem (k : K) (v : V) (d : list (K * V)) : list (K * V) :=
  match d with
  | [] => [(k, v)]
  | (k', v') :: d' =>
      if decide (k' = k) then (k', v) :: d' else (k', v') :: dict_setitem k v d'
  end.

(** [{key(x): x for x in xs}] *)
Definition dict_comprehension (key : V -> K) (xs : list V) : list (K * V) :=
  foldl (fun d x => dict_setitem (key x) x d) [] xs.

(** [d.pop(k)]: [None] stands for the [KeyError]. *)
Fixpoint dict_pop (k : K) (d : list (K * V)) : option (V * list (K * V)) :=
  match d with
  | [] => None
  | (k', v') :: d' =>
      if decide (k' = k) then Some (v', d')
      else match dict_pop k d' with
           | Some (v, d'') => Some (v, (k', v') :: d'')
           | None => None
           end
  end.

Definition dict_keys (d : list (K * V)) : list K := d.*1.
Definition dict_values (d : list (K * V)) : list V := d.*2.
End PyDict.

(** ** The [FieldDependency] table and the effects on it *)

(** The table: its rows in storage order, and the sequence the next primary
    key is drawn from. *)
Record DB : Type := {
  rows : list FieldDependency.t;
  next_id : nat;
}.

(** Computations that read and write the table and may raise. *)
Definition M (A : Type) : Type := DB -> (Exc + A) * DB.

Definition ret {A} (a : A) : M A := fun db => (inr a, db).

Definition raise {A} (e : Exc) : M A := fun db => (inl e, db).

Definition bind {A B} (m : M A) (k : A -> M B) : M B :=
  fun db =>
    match m db with
    | (inr a, db') => k a db'
    | (inl e, db') => (inl e, db')
    end.

Declare Scope orm_scope.
Delimit Scope orm_scope with orm.
Notation "'let!' x ':=' m 'in' k" := (bind m (fun x => k))
  (at level 10, x name, m at level 100, k at level 200) : orm_scope.
Notation "'do!' m 'in' k" := (bind m (fun _ => k))
  (at level 10, m at level 100, k at level 200) : orm_scope.
Local Open Scope orm_scope.

(** A pure computation that may raise, run inside [M]. *)
Definition lift {A} (r : Exc + A) : M A :=
  match r with inl e => raise e | inr a => ret a end.

(** [for x in xs: acc = body(acc, x)] *)
Fixpoint for_each {A B} (body : B -> A -> M B) (acc : B) (xs : list A) : M B :=
  match xs with
  | [] => ret acc
  | x :: xs' => let! acc' := body acc x in for_each body acc' xs'
  end.

Definition run {A} (m : M A) (db : DB) : Exc + A := (m db).1.
Definition exec {A} (m : M A) (db : DB) : DB := (m db).2.

Module objects.
(** [FieldDependency.objects.filter(p)], evaluated. *)
Definition filter (p : FieldDependency.t -> bool) : M (list FieldDependency.t) :=
  fun db => (inr (List.filter p (rows db)), db).

(** [FieldDependency.objects.filter(p).delete()] *)
Definition delete (p : FieldDependency.t -> bool) : M unit :=
  fun db =>
    (inr tt, {| rows := List.filter (fun r => negb (p r)) (rows db);
                next_id := next_id db |}).

(** [FieldDependency.objects.filter(p).update(...)] *)
Definition update (p : FieldDependency.t -> bool)
    (f : FieldDependency.t -> FieldDependency.t) : M unit :=
  fun db =>
    (inr tt, {| rows := (fun r => if p r then f r else r) <$> rows db;
                next_id := next_id db |}).

Fixpoint assign_ids (n : nat) (objs : list FieldDependency.t) : list FieldDependency.t :=
  match objs with
  | [] => []
  | o :: objs' => FieldDependency.set_id (Some n) o :: assign_ids (S n) objs'
  end.

(** [FieldDependency.objects.bulk_create(objs)]: every object is
    inserted under a fresh primary key. *)
Definition bulk_create (objs : list FieldDependency.t) : M unit :=
  fun db =>
    (inr tt, {| rows := rows db ++ assign_ids (next_id db) objs;
                next_id := next_id db + length objs |}).

(** [FieldDependency.objects.bulk_update(objs, ["dependency",
    "broken_reference_field_name"])]: the two columns of the row with an
    object's primary key are overwritten with the object's values. *)
Definition bulk_update (objs : list FieldDependency.t) : M unit :=
  fun db =>
    (inr tt,
     {| rows :=
          (fun r =>
             match List.find (fun o => bool_decide (FieldDependency.id o = FieldDependency.id r)) objs with
             | Some o =>
                 FieldDependency.set_dependency (FieldDependency.dependency o)
                   (FieldDependency.broken_reference_field_name o) r
             | None => r
             end) <$> rows db;
        next_id := next_id db |}).
End objects.

(** Comparing against a model instance in a query compares primary keys. *)
Definition is_field (field : Field.t) (f : Field.t) : bool :=
  bool_decide (Field.id f = Field.id field).

Definition is_field_opt (field : Field.t) (f : option Field.t) : bool :=
  match f with Some f' => is_field field f' | None => false end.

(** The related managers [field.dependencies], [field.dependants],
    [field.vias], as predicates on rows. *)
Definition in_dependencies (field : Field.t) (r : FieldDependency.t) : bool :=
  is_field field (FieldDependency.dependant r).
Definition in_dependants (field : Field.t) (r : FieldDependency.t) : bool :=
  is_field_opt field (FieldDependency.dependency r).
Definition in_vias (field : Field.t) (r : FieldDependency.t) : bool :=
  is_field_opt field (FieldDependency.via r).

(** ** The rebuilder *)

Section Rebuilder.
(** [will_cause_circular_dep] comes from [circular_reference_checker],
    and [get_field_dependencies] from the field type the registry
    resolves; both are outside the module and are taken as given.  The
    checker reads the rows of the table. *)
Variable circular_reference_checker :
  list FieldDependency.t -> Field.t -> Field.t -> bool.
Variable get_field_dependencies :
  Field.t -> FieldCache -> option (list Descriptor).

Definition will_cause_circular_dep (from_field to_field : Field.t) : M bool :=
  fun db => (inr (circular_reference_checker (rows db) from_field to_field), db).

Definition break_dependencies_for_field (field : Field.t) : M unit :=
  do! objects.delete (in_dependencies field) in
  do! objects.update (in_dependants field)
        (FieldDependency.set_dependency None (Some (Field.name field))) in
  if Field.isinstance_LinkRowField field then
    objects.update (in_vias field)
      (FieldDependency.set_dependency_and_via None (Some (Field.name field)) None)
  else ret tt.

(** The two [Q] objects of the repair query. *)
Definition Q_dependant_table (field : Field.t) (r : FieldDependency.t) : bool :=
  bool_decide (Field.table (FieldDependency.dependant r) = Field.table field)
  && bool_decide (FieldDependency.broken_reference_field_name r = Some (Field.name field)).

Definition Q_via_link_row_table (field : Field.t) (r : FieldDependency.t) : bool :=
  match FieldDependency.via r with
  | Some v => bool_decide (Field.link_row_table v = Some (Field.table field))
  | None => false
  end
  && bool_decide (FieldDependency.broken_reference_field_name r = Some (Field.name field)).

Definition update_fields_with_broken_references (field : Field.t) : M bool :=
  let! broken_dependencies_fixed_by_fields_name :=
    objects.filter (fun r => Q_dependant_table field r || Q_via_link_row_table field r) in
  let! updated_deps :=
    for_each
      (fun updated_deps dep =>
         let! circular := will_cause_circular_dep (FieldDependency.dependant dep) field in
         if negb circular then
           ret (updated_deps ++ [FieldDependency.set_dependency (Some field) None dep])
         else ret updated_deps)
      [] broken_dependencies_fixed_by_fields_name in
  do! objects.bulk_update updated_deps in
  ret (bool_decide (0 < length updated_deps)).

Definition _construct_dependency (field_instance : Field.t) (dependency : Descriptor)
    (field_lookup_cache : FieldCache) : Exc + list FieldDependency.t :=
  let '(via_field_name, dependency) :=
    match dependency with
    | DTuple via_field_name dependency => (Some via_field_name, dependency)
    | DName dependency => (None, dependency)
    end in
  if bool_decide (Field.name field_instance = dependency)
     && bool_decide (via_field_name = None)
  then inl SelfReferenceFieldDependencyError
  else
    let table := Field.table field_instance in
    match via_field_name with
    | None =>
        match lookup_by_name field_lookup_cache table dependency with
        | None => inr [FieldDependency.new field_instance None None (Some dependency)]
        | Some dependency_field =>
            inr [FieldDependency.new field_instance (Some dependency_field) None None]
        end
    | Some via_field_name =>
        match lookup_by_name field_lookup_cache table via_field_name with
        | None => inr [FieldDependency.new field_instance None None (Some via_field_name)]
        | Some via_field =>
            match Field.link_row_table via_field with
            | None => inr [FieldDependency.new field_instance (Some via_field) None None]
            | Some target_table =>
                match lookup_by_name field_lookup_cache target_table dependency with
                | None =>
                    inr [FieldDependency.new field_instance None (Some via_field)
                           (Some dependency)]
                | Some target_field =>
                    let deps :=
                      if bool_decide (Field.id field_instance <> Field.id via_field)
                      then [FieldDependency.new field_instance (Some via_field) None None]
                      else [] in
                    inr (deps ++ [FieldDependency.new field_instance (Some target_field)
                                    (Some via_field) None])
                end
            end
        end
    end.

(** [for dependency in field_dependencies: new_dependencies +=
    _construct_dependency(...)] *)
Fixpoint construct_dependencies (field_instance : Field.t)
    (field_dependencies : list Descriptor) (field_lookup_cache : FieldCache)
    (new_dependencies : list FieldDependency.t) : Exc + list FieldDependency.t :=
  match field_dependencies with
  | [] => inr new_dependencies
  | dependency :: rest =>
      match _construct_dependency field_instance dependency field_lookup_cache with
      | inl e => inl e
      | inr deps =>
          construct_dependencies field_instance rest field_lookup_cache
            (new_dependencies ++ deps)
      end
  end.

(** The first loop of the rebuild: every new key is popped from the
    current dictionary, and a missing key queues its dependency. *)
Fixpoint diff_dependencies (new_deps_by_str current_deps_by_str : list (DepKey * FieldDependency.t))
    (new_dependencies_to_create : list FieldDependency.t)
    : list (DepKey * FieldDependency.t) * list FieldDependency.t :=
  match new_deps_by_str with
  | [] => (current_deps_by_str, new_dependencies_to_create)
  | (new_dep_str, new_dep) :: rest =>
      match dict_pop new_dep_str current_deps_by_str with
      | Some (_, current_deps_by_str') =>
          diff_dependencies rest current_deps_by_str' new_dependencies_to_create
      | None =>
          diff_dependencies rest current_deps_by_str
            (new_dependencies_to_create ++ [new_dep])
      end
  end.

Definition rebuild_field_dependencies (field_instance : Field.t)
    (field_lookup_cache : FieldCache) : M unit :=
  let field_dependencies := get_field_dependencies field_instance field_lookup_cache in
  let! new_dependencies :=
    lift (match field_dependencies with
          | Some field_dependencies =>
              construct_dependencies field_instance field_dependencies
                field_lookup_cache []
          | None => inr []
          end) in
  let! current_dependencies := objects.filter (in_dependencies field_instance) in
  let current_deps_by_str := dict_comprehension FieldDependency.str current_dependencies in
  let new_deps_by_str := dict_comprehension FieldDependency.str new_dependencies in
  let '(current_deps_by_str, new_dependencies_to_create) :=
    diff_dependencies new_deps_by_str current_deps_by_str [] in
  do! for_each
        (fun (_ : unit) dep =>
           match FieldDependency.dependency dep with
           | Some dependency =>
               let! circular := will_cause_circular_dep field_instance dependency in
               if circular then raise CircularFieldDependencyError else ret tt
           | None => ret tt
           end)
        tt new_dependencies_to_create in
  do! objects.bulk_create new_dependencies_to_create in
  let delete_ids := FieldDependency.id <$> dict_values current_deps_by_str in
  objects.delete (fun r => bool_decide (FieldDependency.id r ∈ delete_ids)).
End Rebuilder.

(** ** The circular check *)

(** What [check_for_circular] can raise: the two errors of the module, and
    the [AttributeError] of reading [link_row_table] from a field that is
    not a [LinkRowField]: [_get_dependency_field] reads it without the
    [isinstance] test [_construct_dependency] makes. *)
Inductive Raised : Type :=
  | FieldDependencyError (e : Exc)
  | AttributeError.

#[global] Instance Raised_eq_dec : EqDecision Raised.
Proof. solve_decision. Defined.

Section CircularCheck.
Variable circular_reference_checker :
  list FieldDependency.t -> Field.t -> Field.t -> bool.
Variable get_field_dependencies :
  Field.t -> FieldCache -> option (list Descriptor).

Definition _get_dependency_field (dependency : Descriptor) (field_instance : Field.t)
    (field_lookup_cache : FieldCache) : Raised + option Field.t :=
  match dependency with
  | DTuple via_field_name dependency =>
      match lookup_by_name field_lookup_cache (Field.table field_instance) via_field_name with
      | Some via_field =>
          match Field.link_row_table via_field with
          | Some link_row_table =>
              inr (lookup_by_name field_lookup_cache link_row_table dependency)
          | None => inl AttributeError
          end
      | None => inr None
      end
  | DName dependency =>
      inr (lookup_by_name field_lookup_cache (Field.table field_instance) dependency)
  end.

(** [for dependency in field_dependencies: ...]; the check only reads the
    table. *)
Fixpoint check_dependencies (field_instance : Field.t) (field_lookup_cache : FieldCache)
    (field_dependencies : list Descriptor) (db : DB) : Raised + unit :=
  match field_dependencies with
  | [] => inr tt
  | dependency :: rest =>
      match _get_dependency_field dependency field_instance field_lookup_cache with
      | inl e => inl e
      | inr None => check_dependencies field_instance field_lookup_cache rest db
      | inr (Some dependency_field) =>
          if bool_decide (Field.name field_instance = Field.name dependency_field)
          then inl (FieldDependencyError SelfReferenceFieldDependencyError)
          else if circular_reference_checker (rows db) field_instance dependency_field
          then inl (FieldDependencyError CircularFieldDependencyError)
          else check_dependencies field_instance field_lookup_cache rest db
      end
  end.

Definition check_for_circular (field_instance : Field.t) (field_lookup_cache : FieldCache)
    (db : DB) : Raised + unit :=
  match get_field_dependencies field_instance field_lookup_cache with
  | Some field_dependencies =>
      check_dependencies field_instance field_lookup_cache field_dependencies db
  | None => inr tt
  end.
End CircularCheck.

(** ** Collaborators, for running the rebuilder on concrete tables *)

(** Modelled from the spec: [FieldCache.lookup_by_name] lives in
    [fields/field_cache.py], which is not part of the sources at hand.  It
    returns the live field of that name in the table, or not-found. *)
Definition cache_of_fields (fields : list Field.t) : FieldCache :=
  {| lookup_by_name table name :=
       List.find
         (fun f => bool_decide (Field.table f = table) && bool_decide (Field.name f = name))
         fields |}.

(** Modelled from the spec: [will_cause_circular_dep] lives in
    [dependencies/circular_reference_checker.py], which is not part of the
    sources at hand.  The resolved edges form a graph from dependant to
    dependency, with a companion edge from dependant to via; adding
    [source -> target] closes a cycle when [target] is [source] or reaches
    it. *)
Definition successors (rows : list FieldDependency.t) (x : nat) : list nat :=
  flat_map
    (fun r =>
       match FieldDependency.dependency r with
       | Some d =>
           if bool_decide (Field.id (FieldDependency.dependant r) = x)
           then Field.id d :: option_list (Field.id <$> FieldDependency.via r)
           else []
       | None => []
       end)
    rows.

Fixpoint reachable (fuel : nat) (rows : list FieldDependency.t) (seen : list nat) : list nat :=
  match fuel with
  | 0 => seen
  | S fuel' => reachable fuel' rows (remove_dups (seen ++ flat_map (successors rows) seen))
  end.

Definition reachability_checker (rows : list FieldDependency.t)
    (source_field candidate_target_field : Field.t) : bool :=
  bool_decide (Field.id candidate_target_field = Field.id source_field)
  || bool_decide (Field.id source_field
                  ∈ reachable (length rows) rows [Field.id candidate_target_field]).

(** ** Vocabulary of the properties *)

(** The outbound edges of a field, [field.dependencies.all()]. *)
Definition dependencies (field : Field.t) (db : DB) : list FieldDependency.t :=
  List.filter (in_dependencies field) (rows db).

(** The inbound edges of a field, [field.dependants.all()]. *)
Definition dependants (field : Field.t) (db : DB) : list FieldDependency.t :=
  List.filter (in_dependants field) (rows db).

(** What breaking [field] does to an edge it does not delete: an edge routed
    via [field] loses target and via, an edge that targets [field] loses its
    target only; both keep the name of [field]. *)
Definition broken_by (field : Field.t) (r : FieldDependency.t) : FieldDependency.t :=
  if in_vias field r then
    FieldDependency.mk (FieldDependency.id r) (FieldDependency.dependant r)
      None None (Some (Field.name field))
  else if in_dependants field r then
    FieldDependency.mk (FieldDependency.id r) (FieldDependency.dependant r)
      None (FieldDependency.via r) (Some (Field.name field))
  else r.

(** Primary keys are unique and were drawn from the sequence. *)
Definition pk_unique (db : DB) : Prop :=
  NoDup (FieldDependency.id <$> rows db).

Definition pk_below_sequence (db : DB) : Prop :=
  Forall (fun r => exists n, FieldDependency.id r = Some n /\ n < next_id db) (rows db).

(** An edge is in the scope of a repair by [field] when its dependant lives
    in the table of [field], or when it is routed via a link row field
    whose linked table is the table of [field]. *)
Definition in_repair_scope (field : Field.t) (r : FieldDependency.t) : bool :=
  bool_decide (Field.table (FieldDependency.dependant r) = Field.table field)
  || match FieldDependency.via r with
     | Some v => bool_decide (Field.link_row_table v = Some (Field.table field))
     | None => false
     end.

(** The edges a repair by [field] resolves: broken under the name of
    [field], in scope, and passing the cycle check on the table as the
    repair finds it. *)
Definition repairable (checker : list FieldDependency.t -> Field.t -> Field.t -> bool)
    (field : Field.t) (db : DB) (r : FieldDependency.t) : bool :=
  in_repair_scope field r
  && bool_decide (FieldDependency.broken_reference_field_name r = Some (Field.name field))
  && negb (checker (rows db) (FieldDependency.dependant r) field).

(** The edges the descriptors of a field construct, in order, or the error
    the construction raises. *)
Definition constructed (get_field_dependencies : Field.t -> FieldCache -> option (list Descriptor))
    (field_instance : Field.t) (field_lookup_cache : FieldCache)
    : Exc + list FieldDependency.t :=
  match get_field_dependencies field_instance field_lookup_cache with
  | Some field_dependencies =>
      construct_dependencies field_instance field_dependencies field_lookup_cache []
  | None => inr []
  end.

(** A constructed edge is new when no outbound edge of the field in the
    table has its key. *)
Definition is_new (field : Field.t) (db : DB) (e : FieldDependency.t) : Prop :=
  FieldDependency.str e ∉ FieldDependency.str <$> dependencies field db.

(** The cycle check of the rebuild on one edge: broken edges pass. *)
Definition closes_cycle (checker : list FieldDependency.t -> Field.t -> Field.t -> bool)
    (field : Field.t) (db : DB) (e : FieldDependency.t) : bool :=
  match FieldDependency.dependency e with
  | Some d => checker (rows db) field d
  | None => false
  end.

(** The two sides of the diff a rebuild computes. *)
Definition to_create (field : Field.t) (db : DB) (new_dependencies : list FieldDependency.t)
    : list FieldDependency.t :=
  (List.filter
     (fun kv => bool_decide (kv.1 ∉ dict_keys (dict_comprehension FieldDependency.str
                                                  (dependencies field db))))
     (dict_comprehension FieldDependency.str new_dependencies)).*2.

Definition to_delete (field : Field.t) (db : DB) (new_dependencies : list FieldDependency.t)
    : list FieldDependency.t :=
  (List.filter
     (fun kv => bool_decide (kv.1 ∉ dict_keys (dict_comprehension FieldDependency.str
                                                  new_dependencies)))
     (dict_comprehension FieldDependency.str (dependencies field db))).*2.

(** An edge is either resolved, with no broken name, or broken, with the
    name it was broken under; and it is routed, if at all, via a link row
    field. *)
Definition edge_ok (r : FieldDependency.t) : bool :=
  match FieldDependency.dependency r, FieldDependency.broken_reference_field_name r with
  | Some _, None | None, Some _ => true
  | _, _ => false
  end
  && match FieldDependency.via r with
     | Some v => Field.isinstance_LinkRowField v
     | None => true
     end.

Definition edges_ok (db : DB) : Prop :=
  Forall (fun r => edge_ok r = true) (rows db).

(** The constructed edges, one per key, in the order the keys first come
    up: the values of [new_deps_by_str]. *)
Definition desired (new_dependencies : list FieldDependency.t) : list FieldDependency.t :=
  dict_values (dict_comprehension FieldDependency.str new_dependencies).

(** ** Fixtures

The tables of the repository's tests, as values. *)

(** Modelled from the spec: the field types and their
    [get_field_dependencies] live behind [field_type_registry], which is
    not part of the sources at hand.  A fixture lists, per field id, the
    descriptors the type of the field yields; a field without an entry has
    none. *)
Definition descriptors_by_id (registry : list (nat * list Descriptor))
    (field_instance : Field.t) (_ : FieldCache) : option (list Descriptor) :=
  snd <$> List.find (fun entry => bool_decide (entry.1 = Field.id field_instance)) registry.

Local Open Scope string_scope.

Definition empty_db : DB := {| rows := []; next_id := 1 |}.

(** Two linked tables: [table_a] holds a primary field, the link row field
    and a text field, [table_b] holds the primary field the link shows. *)
Definition table_a : nat := 1.
Definition table_b : nat := 2.
Definition primary_field : Field.t := Field.mk 1 "primary" table_a None.
Definition other_primary_field : Field.t := Field.mk 2 "primary" table_b None.
Definition link_row_field : Field.t := Field.mk 3 "link" table_a (Some table_b).
Definition text_field : Field.t := Field.mk 4 "field" table_a None.

(** A lookup field in [table_a] that reads [target_field] of [table_b]
    through the link; [target_field] is a formula on [other_field]. *)
Definition lookup_field : Field.t := Field.mk 5 "lookup" table_a None.
Definition target_field : Field.t := Field.mk 6 "target" table_b None.
Definition other_field : Field.t := Field.mk 7 "other" table_b None.

(** A field created later in [table_b] under the name of [target_field],
    which reads [lookup_field] back through [back_link]. *)
Definition recreated_target_field : Field.t := Field.mk 10 "target" table_b None.
Definition back_link : Field.t := Field.mk 11 "back" table_b (Some table_a).

Definition linked_fields : list Field.t :=
  [primary_field; other_primary_field; link_row_field; text_field;
   lookup_field; target_field; other_field].

Definition linked_cache : FieldCache := cache_of_fields linked_fields.

(** The same tables once the link row field is trashed. *)
Definition cache_without_link : FieldCache :=
  cache_of_fields
    [primary_field; other_primary_field; text_field; lookup_field; target_field;
     other_field].

(** The link row field depends on the primary field of the table it links
    to, through itself: the test of the link row rebuild finds the edge in
    [link_row_field.vias].  The lookup field names its link and its
    target. *)
Definition linked_registry : list (nat * list Descriptor) :=
  [(Field.id link_row_field, [DTuple "link" "primary"]);
   (Field.id lookup_field, [DTuple "link" "target"]);
   (Field.id target_field, [DName "other"])].

(** The lookup field edited into a formula on the primary field. *)
Definition edited_registry : list (nat * list Descriptor) :=
  [(Field.id lookup_field, [DName "primary"])].

(** Two formula fields of one table that reference each other, and a third
    that names [first] twice and itself once more. *)
Definition table_c : nat := 3.
Definition first_formula_field : Field.t := Field.mk 8 "first" table_c None.
Definition second_formula_field : Field.t := Field.mk 9 "second" table_c None.
Definition third_formula_field : Field.t := Field.mk 12 "third" table_c None.

Definition formula_cache : FieldCache :=
  cache_of_fields [first_formula_field; second_formula_field; third_formula_field].

Definition formula_registry : list (nat * list Descriptor) :=
  [(Field.id first_formula_field, [DName "second"]);
   (Field.id second_formula_field, [DName "first"]);
   (Field.id third_formula_field, [DName "first"; DName "first"; DName "missing"])].

Definition self_registry : list (nat * list Descriptor) :=
  [(Field.id third_formula_field, [DName "first"; DName "third"])].

(** A lookup field of [table_a] that carries the name of the field it
    reads in [table_b]. *)
Definition namesake_lookup_field : Field.t := Field.mk 13 "target" table_a None.

Definition namesake_registry : list (nat * list Descriptor) :=
  [(Field.id namesake_lookup_field, [DTuple "link" "target"])].

(** The recreated target reads [lookup_field] back through [back_link]. *)
Definition recreated_registry : list (nat * list Descriptor) :=
  [(Field.id recreated_target_field, [DTuple "back" "lookup"])].

Definition recreated_cache : FieldCache :=
  cache_of_fields
    [primary_field; other_primary_field; link_row_field; text_field; lookup_field;
     other_field; recreated_target_field; back_link].

Local Close Scope string_scope.

(** The tables these fixtures go through, computed by the code itself. *)
Definition rebuild_fixture (registry : list (nat * list Descriptor)) :=
  rebuild_field_dependencies reachability_checker (descriptors_by_id registry).

(** [first] rebuilt: [first -> second]. *)
Definition formula_db : DB :=
  exec (rebuild_fixture formula_registry first_formula_field formula_cache) empty_db.

(** The lookup field rebuilt: [lookup -> link] and [lookup -> target] via
    [link]. *)
Definition lookup_db : DB :=
  exec (rebuild_fixture linked_registry lookup_field linked_cache) empty_db.

(** ... and then the link row field trashed: both edges are broken under
    the name of the link, without via. *)
Definition lookup_db_link_trashed : DB :=
  exec (break_dependencies_for_field link_row_field) lookup_db.

(** The lookup field and its target rebuilt: the two edges of the lookup,
    and [target -> other]. *)
Definition target_db : DB :=
  exec (rebuild_fixture linked_registry target_field linked_cache) lookup_db.

(** ... then the target deleted, and a field of its name created that reads
    the lookup field back. *)
Definition target_db_recreated : DB :=
  exec (rebuild_fixture recreated_registry recreated_target_field recreated_cache)
    (exec (break_dependencies_for_field target_field) target_db).

(** The table of the trashing test: the edge of the link row field, and the
    two hand-made edges of the text field. *)
Definition trash_db : DB :=
  {| rows :=
       [FieldDependency.mk (Some 1) link_row_field (Some other_primary_field)
          (Some link_row_field) None;
        FieldDependency.mk (Some 2) text_field (Some other_primary_field)
          (Some link_row_field) None;
        FieldDependency.mk (Some 3) text_field (Some link_row_field) None None];
     next_id := 4 |}.

(** ** Properties *)

(** *** Lists and dictionaries *)

Lemma elem_of_filter_bool {A} (p : A -> bool) (l : list A) (x : A) :
  x ∈ List.filter p l <-> x ∈ l /\ p x = true.
Proof. rewrite !list_elem_of_In. apply filter_In. Qed.

Lemma filter_all {A} (p : A -> bool) (l : list A) :
  (forall x, x ∈ l -> p x = true) -> List.filter p l = l.
Proof.
  induction l as [| a l IH]; simpl; intros Hall; [done |].
  rewrite (Hall a) by left. f_equal. apply IH. intros x Hx. apply Hall. by right.
Qed.

Lemma filter_none {A} (p : A -> bool) (l : list A) :
  (forall x, x ∈ l -> p x = false) -> List.filter p l = [].
Proof.
  induction l as [| a l IH]; simpl; intros Hall; [done |].
  rewrite (Hall a) by left. apply IH. intros x Hx. apply Hall. by right.
Qed.

Lemma filter_filter_andb {A} (p q : A -> bool) (l : list A) :
  List.filter q (List.filter p l) = List.filter (fun x => p x && q x) l.
Proof.
  induction l as [| a l IH]; simpl; [done |].
  destruct (p a); simpl; [destruct (q a) |]; by rewrite IH.
Qed.

Lemma NoDup_fmap_eq {A B} (f : A -> B) (l : list A) (x y : A) :
  NoDup (f <$> l) -> x ∈ l -> y ∈ l -> f x = f y -> x = y.
Proof.
  induction l as [| a l IH]; simpl; intros Hnd Hx Hy Hf.
  - by apply elem_of_nil in Hx.
  - apply NoDup_cons in Hnd as [Ha Hnd].
    apply elem_of_cons in Hx as [-> | Hx]; apply elem_of_cons in Hy as [-> | Hy];
      try done.
    + exfalso. apply Ha. rewrite Hf. by apply list_elem_of_fmap_2.
    + exfalso. apply Ha. rewrite <- Hf. by apply list_elem_of_fmap_2.
    + by apply IH.
Qed.

Lemma NoDup_fmap_filter {A B} (f : A -> B) (p : A -> bool) (l : list A) :
  NoDup (f <$> l) -> NoDup (f <$> List.filter p l).
Proof.
  induction l as [| a l IH]; simpl; [done |].
  intros [Ha Hnd]%NoDup_cons. destruct (p a); simpl; [| by apply IH].
  apply NoDup_cons. split; [| by apply IH].
  intros (x & Hfx & Hx)%list_elem_of_fmap. apply Ha. rewrite Hfx.
  apply list_elem_of_fmap_2. by apply elem_of_filter_bool in Hx as [Hx _].
Qed.

Section PyDictFacts.
Context {K V : Type} `{EqDecision K}.
Implicit Types (d : list (K * V)) (k : K) (v : V).

Lemma elem_of_dict_setitem_keys k' k v d :
  k' ∈ dict_keys (dict_setitem k v d) <-> k' = k \/ k' ∈ dict_keys d.
Proof.
  unfold dict_keys. induction d as [| [k0 v0] d IH]; simpl.
  - rewrite list_elem_of_singleton, elem_of_nil. tauto.
  - destruct (decide (k0 = k)) as [-> | Hne]; simpl.
    + rewrite !elem_of_cons. tauto.
    + rewrite !elem_of_cons, IH. tauto.
Qed.

Lemma dict_setitem_NoDup k v d :
  NoDup (dict_keys d) -> NoDup (dict_keys (dict_setitem k v d)).
Proof.
  unfold dict_keys. induction d as [| [k0 v0] d IH]; simpl.
  - intros _. apply NoDup_singleton.
  - intros [Hk0 Hnd]%NoDup_cons.
    destruct (decide (k0 = k)) as [-> | Hne]; simpl.
    + by apply NoDup_cons.
    + apply NoDup_cons. split; [| by apply IH].
      intros [-> | Hin]%elem_of_dict_setitem_keys; done.
Qed.

Lemma elem_of_dict_setitem k' v' k v d :
  (k', v') ∈ dict_setitem k v d -> (k' = k /\ v' = v) \/ (k', v') ∈ d.
Proof.
  induction d as [| [k0 v0] d IH]; simpl.
  - intros [= -> ->]%list_elem_of_singleton. by left.
  - destruct (decide (k0 = k)) as [-> | Hne].
    + intros [[= -> ->] | Hin]%elem_of_cons; [by left |].
      right. by right.
    + intros [[= -> ->] | Hin]%elem_of_cons; [right; by left |].
      destruct (IH Hin) as [? | ?]; [by left |]. right. by right.
Qed.

Lemma dict_setitem_fresh k v d :
  k ∉ dict_keys d -> dict_setitem k v d = d ++ [(k, v)].
Proof.
  unfold dict_keys. induction d as [| [k0 v0] d IH]; simpl; [done |].
  intros [Hne Hk]%not_elem_of_cons.
  destruct (decide (k0 = k)) as [-> | _]; [done |]. by rewrite IH.
Qed.

Section Comprehension.
Variable key : V -> K.

Local Abbreviation step := (fun d (x : V) => dict_setitem (key x) x d).

Lemma dict_fold_NoDup (xs : list V) d :
  NoDup (dict_keys d) -> NoDup (dict_keys (foldl step d xs)).
Proof.
  revert d. induction xs as [| x xs IH]; simpl; intros d Hd; [done |].
  apply IH. by apply dict_setitem_NoDup.
Qed.

Lemma elem_of_dict_fold_keys (xs : list V) d k :
  k ∈ dict_keys (foldl step d xs) <-> k ∈ dict_keys d \/ k ∈ key <$> xs.
Proof.
  revert d. induction xs as [| x xs IH]; simpl; intros d.
  - rewrite elem_of_nil. tauto.
  - rewrite IH. rewrite elem_of_dict_setitem_keys, elem_of_cons.
    tauto.
Qed.

Lemma elem_of_dict_fold (xs : list V) d k v :
  (k, v) ∈ foldl step d xs -> (k, v) ∈ d \/ (v ∈ xs /\ key v = k).
Proof.
  revert d. induction xs as [| x xs IH]; simpl; intros d Hin; [by left |].
  destruct (IH _ Hin) as [Hd | [Hv Hk]].
  - apply elem_of_dict_setitem in Hd as [[-> ->] | Hd]; [| by left].
    right. split; [by left | done].
  - right. split; [by right | done].
Qed.

Lemma dict_fold_distinct (xs : list V) d :
  NoDup (dict_keys d ++ (key <$> xs)) ->
  foldl step d xs = d ++ ((fun x => (key x, x)) <$> xs).
Proof.
  revert d. induction xs as [| x xs IH]; simpl; intros d Hnd.
  - by rewrite app_nil_r.
  - apply NoDup_app in Hnd as (Hd & Hdisj & [Hx Hxs]%NoDup_cons).
    assert (Hfresh : key x ∉ dict_keys d).
    { intros Hin. apply (Hdisj _ Hin). by left. }
    rewrite (dict_setitem_fresh _ _ _ Hfresh).
    rewrite IH.
    + by rewrite <- app_assoc.
    + unfold dict_keys in *. rewrite fmap_app. simpl. rewrite <- app_assoc. simpl.
      apply NoDup_app. split; [done |]. split.
      * intros k Hk [-> | Hin]%elem_of_cons; [done |].
        apply (Hdisj _ Hk). by right.
      * by apply NoDup_cons.
Qed.

Lemma dict_comprehension_NoDup (xs : list V) :
  NoDup (dict_keys (dict_comprehension key xs)).
Proof. apply dict_fold_NoDup. apply NoDup_nil_2. Qed.

Lemma elem_of_dict_comprehension_keys (xs : list V) k :
  k ∈ dict_keys (dict_comprehension key xs) <-> k ∈ key <$> xs.
Proof.
  unfold dict_comprehension. rewrite elem_of_dict_fold_keys.
  unfold dict_keys. simpl. rewrite elem_of_nil. tauto.
Qed.

Lemma elem_of_dict_comprehension (xs : list V) k v :
  (k, v) ∈ dict_comprehension key xs -> v ∈ xs /\ key v = k.
Proof.
  intros [Hin | ?]%elem_of_dict_fold; [| done]. by apply elem_of_nil in Hin.
Qed.

Lemma dict_comprehension_distinct (xs : list V) :
  NoDup (key <$> xs) ->
  dict_comprehension key xs = (fun x => (key x, x)) <$> xs.
Proof. intros Hnd. unfold dict_comprehension. by rewrite dict_fold_distinct. Qed.
End Comprehension.

Lemma dict_pop_None k d : dict_pop k d = None <-> k ∉ dict_keys d.
Proof.
  unfold dict_keys. induction d as [| [k0 v0] d IH]; simpl.
  - split; [intros _; apply not_elem_of_nil | done].
  - rewrite not_elem_of_cons. destruct (decide (k0 = k)) as [-> | Hne].
    + split; [done | tauto].
    + destruct (dict_pop k d) as [[v d'] |].
      * split; [done |]. intros [_ Hk]. by apply IH in Hk.
      * split; [| done]. intros _. split; [done | by apply IH].
Qed.

Lemma dict_pop_Some k d v d' :
  NoDup (dict_keys d) ->
  dict_pop k d = Some (v, d') ->
  k ∈ dict_keys d /\ d' = List.filter (fun kv => bool_decide (kv.1 <> k)) d.
Proof.
  unfold dict_keys. revert d'. induction d as [| [k0 v0] d IH]; simpl; [done |].
  intros d' [Hk0 Hnd]%NoDup_cons.
  destruct (decide (k0 = k)) as [-> | Hne].
  - intros [= <- <-]. split; [by left |].
    rewrite bool_decide_eq_false_2 by (intros Hc; by apply Hc).
    symmetry. apply filter_all. intros [k1 v1] Hin. apply bool_decide_eq_true_2.
    simpl. intros ->. apply Hk0. by apply (list_elem_of_fmap_2 fst) in Hin.
  - destruct (dict_pop k d) as [[v1 d1] |] eqn:Hpop; [| done].
    intros [= <- <-]. destruct (IH d1 Hnd eq_refl) as [Hin ->].
    split; [by right |]. by rewrite bool_decide_eq_true_2.
Qed.
End PyDictFacts.

(** The diff loop, in closed form. *)
Lemma diff_dependencies_eq (new_deps cur_deps : list (DepKey * FieldDependency.t))
    (acc : list FieldDependency.t) :
  NoDup (dict_keys new_deps) ->
  NoDup (dict_keys cur_deps) ->
  diff_dependencies new_deps cur_deps acc
  = (List.filter (fun kv => bool_decide (kv.1 ∉ dict_keys new_deps)) cur_deps,
     acc ++ (List.filter (fun kv => bool_decide (kv.1 ∉ dict_keys cur_deps)) new_deps).*2).
Proof.
  revert cur_deps acc.
  induction new_deps as [| [k v] new_deps IH]; intros cur_deps acc Hnew Hcur; simpl.
  - rewrite app_nil_r. f_equal. symmetry. apply filter_all.
    intros kv _. first [done | apply bool_decide_eq_true_2, not_elem_of_nil].
  - unfold dict_keys in Hnew. simpl in Hnew. apply NoDup_cons in Hnew as [Hk Hnew].
    destruct (dict_pop k cur_deps) as [[v0 cur_deps'] |] eqn:Hpop.
    + destruct (dict_pop_Some _ _ _ _ Hcur Hpop) as [Hin ->].
      rewrite IH; [| done | by apply NoDup_fmap_filter].
      rewrite (bool_decide_eq_false_2 (k ∉ _)) by (intros Hc; by apply Hc).
      f_equal.
      * rewrite filter_filter_andb. apply filter_ext. intros [k1 v1]. simpl.
        unfold dict_keys. simpl. destruct (decide (k1 = k)) as [-> | Hne].
        -- rewrite (bool_decide_eq_false_2 (k <> k)) by (intros Hc; by apply Hc).
           rewrite (bool_decide_eq_false_2 (k ∉ k :: _)); [done |].
           intros Hc. apply Hc. by left.
        -- rewrite (bool_decide_eq_true_2 (k1 <> k)) by done. simpl.
           apply bool_decide_ext. rewrite not_elem_of_cons. tauto.
      * f_equal. f_equal. apply filter_ext_in. intros [k1 v1] Hin1. simpl.
        apply bool_decide_ext.
        assert (k1 <> k).
        { intros ->. apply Hk. apply list_elem_of_In in Hin1.
          by apply (list_elem_of_fmap_2 fst) in Hin1. }
        unfold dict_keys. rewrite !list_elem_of_fmap.
        split.
        -- intros Hn [kv [-> Hkv]]. apply Hn. exists kv. split; [done |].
           apply elem_of_filter_bool. split; [done |]. by apply bool_decide_eq_true_2.
        -- intros Hn [kv [-> Hkv]]. apply Hn. exists kv. split; [done |].
           by apply elem_of_filter_bool in Hkv as [? _].
    + apply dict_pop_None in Hpop.
      rewrite IH by done. rewrite (bool_decide_eq_true_2 (k ∉ _)) by done. simpl.
      rewrite <- app_assoc. simpl. f_equal.
      apply filter_ext_in. intros [k1 v1] Hin1. simpl. apply bool_decide_ext.
      unfold dict_keys at 2. simpl. rewrite not_elem_of_cons.
      split; [| tauto]. intros Hn. split; [| done]. intros ->. apply Hpop.
      apply list_elem_of_In in Hin1. by apply (list_elem_of_fmap_2 fst) in Hin1.
Qed.

Lemma str_set_id (i : option nat) (v : FieldDependency.t) :
  FieldDependency.str (FieldDependency.set_id i v) = FieldDependency.str v.
Proof. done. Qed.

Lemma assign_ids_str (n : nat) (l : list FieldDependency.t) :
  FieldDependency.str <$> objects.assign_ids n l = FieldDependency.str <$> l.
Proof. revert n. induction l as [| v l IH]; intros n; simpl; [done |]. by rewrite IH. Qed.

Lemma elem_of_assign_ids (n : nat) (l : list FieldDependency.t) (r : FieldDependency.t) :
  r ∈ objects.assign_ids n l ->
  exists v m, v ∈ l /\ n <= m /\ r = FieldDependency.set_id (Some m) v.
Proof.
  revert n. induction l as [| v l IH]; intros n; simpl.
  - by intros ?%elem_of_nil.
  - intros [-> | Hin]%elem_of_cons.
    + exists v, n. split; [by left |]. split; [lia | done].
    + destruct (IH _ Hin) as (v' & m & Hv' & Hm & ->).
      exists v', m. split; [by right |]. split; [lia | done].
Qed.

Lemma assign_ids_elem_of (n : nat) (l : list FieldDependency.t) (v : FieldDependency.t) :
  v ∈ l -> exists m, n <= m /\ FieldDependency.set_id (Some m) v ∈ objects.assign_ids n l.
Proof.
  revert n. induction l as [| v0 l IH]; intros n; simpl.
  - by intros ?%elem_of_nil.
  - intros [-> | Hin]%elem_of_cons.
    + exists n. split; [lia | by left].
    + destruct (IH (S n) Hin) as (m & Hm & Hel). exists m. split; [lia | by right].
Qed.

Lemma elem_of_to_create (field : Field.t) (db : DB) (new_dependencies : list FieldDependency.t)
    (v : FieldDependency.t) :
  v ∈ to_create field db new_dependencies <->
  (FieldDependency.str v, v) ∈ dict_comprehension FieldDependency.str new_dependencies
  /\ is_new field db v.
Proof.
  unfold to_create, is_new. rewrite list_elem_of_fmap. split.
  - intros ([k v'] & -> & Hin). simpl.
    apply elem_of_filter_bool in Hin as [Hin Hk]. simpl in Hk.
    apply bool_decide_eq_true_1 in Hk. rewrite elem_of_dict_comprehension_keys in Hk.
    destruct (elem_of_dict_comprehension _ _ _ _ Hin) as [_ <-]. done.
  - intros [Hin Hk]. exists (FieldDependency.str v, v). split; [done |].
    apply elem_of_filter_bool. split; [done |]. simpl.
    apply bool_decide_eq_true_2. by rewrite elem_of_dict_comprehension_keys.
Qed.

Lemma elem_of_to_delete (field : Field.t) (db : DB) (new_dependencies : list FieldDependency.t)
    (r : FieldDependency.t) :
  r ∈ to_delete field db new_dependencies <->
  (FieldDependency.str r, r) ∈ dict_comprehension FieldDependency.str (dependencies field db)
  /\ FieldDependency.str r ∉ FieldDependency.str <$> new_dependencies.
Proof.
  unfold to_delete. rewrite list_elem_of_fmap. split.
  - intros ([k r'] & -> & Hin). simpl.
    apply elem_of_filter_bool in Hin as [Hin Hk]. simpl in Hk.
    apply bool_decide_eq_true_1 in Hk. rewrite elem_of_dict_comprehension_keys in Hk.
    destruct (elem_of_dict_comprehension _ _ _ _ Hin) as [_ <-]. done.
  - intros [Hin Hk]. exists (FieldDependency.str r, r). split; [done |].
    apply elem_of_filter_bool. split; [done |]. simpl.
    apply bool_decide_eq_true_2. by rewrite elem_of_dict_comprehension_keys.
Qed.

Lemma to_create_keys_NoDup (field : Field.t) (db : DB)
    (new_dependencies : list FieldDependency.t) :
  NoDup (FieldDependency.str <$> to_create field db new_dependencies).
Proof.
  unfold to_create. rewrite <- list_fmap_compose.
  erewrite (list_fmap_ext _ fst).
  - apply NoDup_fmap_filter. apply dict_comprehension_NoDup.
  - intros i [k v] Hi. simpl.
    apply list_elem_of_lookup_2, elem_of_filter_bool in Hi as [Hi _].
    by destruct (elem_of_dict_comprehension _ _ _ _ Hi) as [_ <-].
Qed.

Lemma to_create_covers (field : Field.t) (db : DB) (new_dependencies : list FieldDependency.t)
    (e : FieldDependency.t) :
  e ∈ new_dependencies -> is_new field db e ->
  exists v, v ∈ to_create field db new_dependencies
            /\ FieldDependency.str v = FieldDependency.str e.
Proof.
  intros He Hnew.
  assert (Hk : FieldDependency.str e
               ∈ dict_keys (dict_comprehension FieldDependency.str new_dependencies)).
  { apply elem_of_dict_comprehension_keys. by apply list_elem_of_fmap_2. }
  unfold dict_keys in Hk. apply list_elem_of_fmap in Hk as ([k v] & Hkv & Hin).
  simpl in Hkv. subst k.
  destruct (elem_of_dict_comprehension _ _ _ _ Hin) as [_ Hstr].
  exists v. split; [| done]. apply elem_of_to_create. rewrite Hstr.
  split; [done |]. unfold is_new in *. by rewrite Hstr.
Qed.

Lemma construct_dependency_dependant field_instance d cache deps e :
  _construct_dependency field_instance d cache = inr deps ->
  e ∈ deps ->
  FieldDependency.dependant e = field_instance /\ FieldDependency.id e = None.
Proof.
  unfold _construct_dependency.
  destruct d as [n | v n]; simpl; repeat case_match; intros [= <-];
    rewrite ?app_nil_l, ?elem_of_cons, ?elem_of_nil; intros Hin;
    repeat destruct Hin as [Hin | Hin]; subst; done.
Qed.

Lemma construct_dependencies_dependant field_instance descs cache acc new_dependencies :
  construct_dependencies field_instance descs cache acc = inr new_dependencies ->
  Forall (fun e => FieldDependency.dependant e = field_instance) acc ->
  Forall (fun e => FieldDependency.dependant e = field_instance) new_dependencies.
Proof.
  revert acc. induction descs as [| d descs IH]; simpl; intros acc Hc Hacc.
  - by injection Hc as <-.
  - destruct (_construct_dependency field_instance d cache) as [e | deps] eqn:Hd; [done |].
    apply (IH _ Hc). apply Forall_app. split; [done |].
    apply Forall_forall. intros e He.
    by destruct (construct_dependency_dependant _ _ _ _ _ Hd He).
Qed.

Lemma constructed_dependant get_deps field_instance cache new_dependencies e :
  constructed get_deps field_instance cache = inr new_dependencies ->
  e ∈ new_dependencies ->
  FieldDependency.dependant e = field_instance.
Proof.
  unfold constructed. intros Hc He.
  destruct (get_deps field_instance cache) as [descs |].
  - pose proof (construct_dependencies_dependant _ _ _ _ _ Hc (Forall_nil_2 _)) as Hall.
    by apply (proj1 (Forall_forall _ _) Hall).
  - injection Hc as <-. by apply elem_of_nil in He.
Qed.


Section Properties.
Variable circular_reference_checker :
  list FieldDependency.t -> Field.t -> Field.t -> bool.
Variable get_field_dependencies :
  Field.t -> FieldCache -> option (list Descriptor).

Local Abbreviation rebuild :=
  (rebuild_field_dependencies circular_reference_checker get_field_dependencies).
Local Abbreviation repair :=
  (update_fields_with_broken_references circular_reference_checker).

(** *** Construction *)

Lemma construct_dependency_raises_only_self_reference field_instance d cache e :
  _construct_dependency field_instance d cache = inl e ->
  e = SelfReferenceFieldDependencyError.
Proof.
  unfold _construct_dependency.
  destruct d as [n | v n]; simpl; repeat case_match; congruence.
Qed.

Lemma construct_dependencies_self_reference field_instance descs cache acc :
  DName (Field.name field_instance) ∈ descs ->
  construct_dependencies field_instance descs cache acc
  = inl SelfReferenceFieldDependencyError.
Proof.
  revert acc. induction descs as [| d descs IH]; intros acc Hin.
  - by apply elem_of_nil in Hin.
  - simpl. destruct (_construct_dependency field_instance d cache) as [e | deps] eqn:Hd.
    + by rewrite (construct_dependency_raises_only_self_reference _ _ _ _ Hd).
    + apply elem_of_cons in Hin as [<- | Hin]; [| by apply IH].
      unfold _construct_dependency in Hd. simpl in Hd.
      rewrite bool_decide_eq_true_2 in Hd by done. done.
Qed.

(** C8: a via pair whose via name does not resolve in the dependant's
    table gives the single broken edge that keeps the via name and has no
    via; a via pair whose via resolves to a link row field while the
    target name does not resolve in the linked table gives the single
    broken edge that keeps the target name and the resolved via. *)
Theorem construct_dependency_unresolved_via_pair
    (field_instance : Field.t) (via_field_name dependency : string)
    (field_lookup_cache : FieldCache) :
  (lookup_by_name field_lookup_cache (Field.table field_instance) via_field_name = None ->
   _construct_dependency field_instance (DTuple via_field_name dependency)
     field_lookup_cache
   = inr [FieldDependency.mk None field_instance None None (Some via_field_name)])
  /\ (forall via_field target_table,
        lookup_by_name field_lookup_cache (Field.table field_instance) via_field_name
        = Some via_field ->
        Field.link_row_table via_field = Some target_table ->
        lookup_by_name field_lookup_cache target_table dependency = None ->
        _construct_dependency field_instance (DTuple via_field_name dependency)
          field_lookup_cache
        = inr [FieldDependency.mk None field_instance None (Some via_field)
                 (Some dependency)]).
Proof.
  split.
  - intros Hvia. unfold _construct_dependency. simpl.
    rewrite andb_false_r, Hvia. done.
  - intros via_field target_table Hvia Hlink Htarget.
    unfold _construct_dependency. simpl.
    rewrite andb_false_r, Hvia, Hlink, Htarget. done.
Qed.

(** C6: when the descriptor list of a field holds the bare name of the
    field itself, the rebuild raises [SelfReferenceFieldDependencyError]
    and the table is left as it was. *)
Theorem rebuild_self_reference_raises
    (field_instance : Field.t) (field_lookup_cache : FieldCache)
    (field_dependencies : list Descriptor) (db : DB) :
  get_field_dependencies field_instance field_lookup_cache = Some field_dependencies ->
  DName (Field.name field_instance) ∈ field_dependencies ->
  rebuild field_instance field_lookup_cache db
  = (inl SelfReferenceFieldDependencyError, db).
Proof.
  intros Hdeps Hin. unfold rebuild_field_dependencies. rewrite Hdeps.
  rewrite (construct_dependencies_self_reference _ _ _ _ Hin). done.
Qed.

(** *** Breaking *)

Lemma break_dependencies_for_field_rows (field : Field.t) (db : DB) :
  break_dependencies_for_field field db
  = (inr tt,
     {| rows :=
          (fun r =>
             if Field.isinstance_LinkRowField field && in_vias field r then
               FieldDependency.mk (FieldDependency.id r) (FieldDependency.dependant r)
                 None None (Some (Field.name field))
             else if in_dependants field r then
               FieldDependency.mk (FieldDependency.id r) (FieldDependency.dependant r)
                 None (FieldDependency.via r) (Some (Field.name field))
             else r)
          <$> List.filter (fun r => negb (in_dependencies field r)) (rows db);
        next_id := next_id db |}).
Proof.
  unfold break_dependencies_for_field, bind. simpl.
  generalize (List.filter (fun r => negb (in_dependencies field r)) (rows db)).
  intros l.
  destruct (Field.isinstance_LinkRowField field) eqn:Hlink;
    unfold objects.update, ret; simpl; f_equal; f_equal.
  rewrite <- list_fmap_compose. apply list_fmap_ext. intros i r _. simpl.
  unfold in_vias, in_dependants.
  destruct r as [i' a d v b]; simpl.
  destruct (is_field_opt field d), (is_field_opt field v) eqn:Hv; simpl;
    rewrite ?Hv; done.
Qed.

(** C4: breaking [field] deletes every edge whose dependant is [field];
    of the edges that stay, every one whose dependency is [field] has its
    dependency nulled and the name of [field] recorded, and every one
    whose via is [field] has its via nulled as well; no table is looked
    at.  The via of an edge refers to a [LinkRowField]: an edge routed via
    [field] shows [field] to be one. *)
Theorem break_dependencies_for_field_breaks_all (field : Field.t) (db : DB) :
  (forall r, r ∈ rows db -> in_vias field r = true ->
             Field.isinstance_LinkRowField field = true) ->
  break_dependencies_for_field field db
  = (inr tt,
     {| rows := broken_by field
                  <$> List.filter (fun r => negb (in_dependencies field r)) (rows db);
        next_id := next_id db |}).
Proof.
  intros Hvias. rewrite break_dependencies_for_field_rows. f_equal. f_equal.
  apply list_fmap_ext. intros i r Hr. unfold broken_by.
  apply list_elem_of_lookup_2, elem_of_filter_bool in Hr as [Hr _].
  destruct (in_vias field r) eqn:Hv; [| by rewrite andb_false_r].
  by rewrite (Hvias r Hr Hv).
Qed.

(** *** Repairing *)

Lemma repair_loop (field : Field.t) (l acc : list FieldDependency.t) (db : DB) :
  for_each
    (fun updated_deps dep =>
       let! circular :=
         will_cause_circular_dep circular_reference_checker
           (FieldDependency.dependant dep) field in
       if negb circular then
         ret (updated_deps ++ [FieldDependency.set_dependency (Some field) None dep])
       else ret updated_deps)
    acc l db
  = (inr (acc ++ (FieldDependency.set_dependency (Some field) None
                    <$> List.filter
                          (fun dep =>
                             negb (circular_reference_checker (rows db)
                                     (FieldDependency.dependant dep) field))
                          l)),
     db).
Proof.
  revert acc. induction l as [| dep l IH]; intros acc; simpl.
  - by rewrite app_nil_r.
  - unfold bind at 1. unfold bind at 1. unfold will_cause_circular_dep at 1.
    destruct (circular_reference_checker (rows db) (FieldDependency.dependant dep) field);
      simpl; unfold ret at 1; rewrite IH; [done |].
    by rewrite <- app_assoc.
Qed.

Lemma repair_query_scope (field : Field.t) (r : FieldDependency.t) :
  Q_dependant_table field r || Q_via_link_row_table field r
  = in_repair_scope field r
    && bool_decide (FieldDependency.broken_reference_field_name r = Some (Field.name field)).
Proof.
  unfold Q_dependant_table, Q_via_link_row_table, in_repair_scope.
  destruct (bool_decide (Field.table (FieldDependency.dependant r) = Field.table field)),
    (bool_decide (FieldDependency.broken_reference_field_name r = Some (Field.name field)));
    simpl; rewrite ?andb_true_r, ?andb_false_r; done.
Qed.

Lemma length_pos_existsb {A B} (f : A -> B) (p : A -> bool) (l : list A) :
  bool_decide (0 < length (f <$> List.filter p l)) = existsb p l.
Proof.
  induction l as [| a l IH]; simpl; [done |].
  destruct (p a); simpl; [| done].
  first [done | apply bool_decide_eq_true_2; lia].
Qed.

Lemma update_fields_with_broken_references_rows (field : Field.t) (db : DB) :
  pk_unique db ->
  repair field db
  = (inr (existsb (repairable circular_reference_checker field db) (rows db)),
     {| rows :=
          (fun r =>
             if repairable circular_reference_checker field db r
             then FieldDependency.set_dependency (Some field) None r
             else r) <$> rows db;
        next_id := next_id db |}).
Proof.
  intros Hpk. unfold update_fields_with_broken_references.
  unfold bind at 1. unfold objects.filter at 1.
  unfold bind at 1. rewrite repair_loop. simpl.
  unfold bind, objects.bulk_update, ret. simpl.
  rewrite filter_filter_andb.
  assert (Hp : forall r,
    (Q_dependant_table field r || Q_via_link_row_table field r)
    && negb (circular_reference_checker (rows db) (FieldDependency.dependant r) field)
    = repairable circular_reference_checker field db r).
  { intros r. by rewrite repair_query_scope. }
  rewrite (filter_ext _ _ Hp).
  rewrite length_pos_existsb. f_equal. f_equal.
  apply list_fmap_ext. intros i r Hr. apply list_elem_of_lookup_2 in Hr.
  destruct (List.find _ _) as [o |] eqn:Hfind.
  - apply find_some in Hfind as [Ho Hid].
    apply bool_decide_eq_true_1 in Hid.
    apply list_elem_of_In, list_elem_of_fmap in Ho as (r' & -> & Hr').
    apply elem_of_filter_bool in Hr' as [Hr' Hrep].
    simpl in Hid.
    assert (r' = r) as -> by (by apply (NoDup_fmap_eq FieldDependency.id (rows db))).
    by rewrite Hrep.
  - destruct (repairable circular_reference_checker field db r) eqn:Hrep; [| done].
    pose proof (find_none _ _ Hfind
                  (FieldDependency.set_dependency (Some field) None r)) as Hnone.
    simpl in Hnone. rewrite bool_decide_eq_true_2 in Hnone by done.
    discriminate Hnone.
    apply list_elem_of_In, list_elem_of_fmap_2, elem_of_filter_bool. done.
Qed.

(** C5: a repair by [field] never raises; it resolves exactly the edges
    that are broken under the name of [field], in scope and not refused
    by [will_cause_circular_dep (dependant, field)]: each of them gets
    [field] as dependency and its broken name cleared, every other edge
    is left as it was, and the repair returns true exactly when some edge
    was resolved. *)
Theorem update_fields_with_broken_references_repairs_exactly
    (field : Field.t) (db : DB) :
  pk_unique db ->
  exists (repaired : bool),
    run (repair field) db = inr repaired
    /\ (repaired = true <->
        exists r, r ∈ rows db /\ repairable circular_reference_checker field db r = true)
    /\ rows (exec (repair field) db)
       = (fun r =>
            if repairable circular_reference_checker field db r
            then FieldDependency.mk (FieldDependency.id r) (FieldDependency.dependant r)
                   (Some field) (FieldDependency.via r) None
            else r) <$> rows db.
Proof.
  intros Hpk. unfold run, exec.
  rewrite (update_fields_with_broken_references_rows _ _ Hpk). simpl.
  eexists. split; [done |]. split; [| done].
  rewrite existsb_exists. setoid_rewrite list_elem_of_In. done.
Qed.

(** C10: a broken edge without a via is out of reach of the via branch of
    the repair query, which matches only edges that carry a via whose
    linked table is the table of [field]; a repair by [field] changes
    such an edge only if [field] lives in the table of its dependant. *)
Theorem repair_of_edge_without_via (field : Field.t) (db : DB) :
  pk_unique db ->
  (forall r, FieldDependency.via r = None -> Q_via_link_row_table field r = false)
  /\ (forall r, Q_via_link_row_table field r = true ->
        exists v, FieldDependency.via r = Some v
                  /\ Field.link_row_table v = Some (Field.table field))
  /\ (forall i r,
        rows db !! i = Some r ->
        FieldDependency.via r = None ->
        rows (exec (repair field) db) !! i <> Some r ->
        Field.table (FieldDependency.dependant r) = Field.table field).
Proof.
  intros Hpk. split; [| split].
  - intros r Hvia. unfold Q_via_link_row_table. by rewrite Hvia.
  - intros r. unfold Q_via_link_row_table.
    destruct (FieldDependency.via r) as [v |]; simpl; [| done].
    intros [Hl _]%andb_prop. apply bool_decide_eq_true_1 in Hl. eauto.
  - intros i r Hi Hvia Hchanged. unfold exec in Hchanged.
    rewrite (update_fields_with_broken_references_rows _ _ Hpk) in Hchanged.
    simpl in Hchanged. rewrite list_lookup_fmap, Hi in Hchanged. simpl in Hchanged.
    destruct (repairable circular_reference_checker field db r) eqn:Hrep; [| done].
    unfold repairable, in_repair_scope in Hrep. rewrite Hvia in Hrep.
    rewrite orb_false_r in Hrep.
    apply andb_prop in Hrep as [[Ht _]%andb_prop _].
    by apply bool_decide_eq_true_1 in Ht.
Qed.

(** *** Breaking a target, then repairing it *)

Lemma break_dependencies_for_field_pk_unique (field : Field.t) (db : DB) :
  pk_unique db -> pk_unique (exec (break_dependencies_for_field field) db).
Proof.
  unfold pk_unique, exec. rewrite break_dependencies_for_field_rows. simpl.
  intros Hpk. rewrite <- list_fmap_compose.
  erewrite list_fmap_ext; [by apply NoDup_fmap_filter |].
  intros i r _. simpl. by repeat case_match.
Qed.

(** C7, as the code has it: let Y be the dependency of an edge that is
    routed via another field L and whose dependant is not Y.  Breaking Y
    rewrites, on that edge, the dependency and the broken name only: row
    id, dependant and via stay.  Every edge that has Y neither as
    dependant nor as dependency nor as via is still in the table,
    untouched.  A later repair by a field that carries the name of Y and
    lives in the table L links to sets the dependency again and keeps the
    via, provided the cycle check lets the edge through. *)
Theorem break_target_keeps_via_then_repair (Y Y' : Field.t) (db : DB) :
  pk_unique db ->
  let db1 := exec (break_dependencies_for_field Y) db in
  (forall r L,
      r ∈ rows db ->
      FieldDependency.via r = Some L ->
      Field.id L <> Field.id Y ->
      in_dependants Y r = true ->
      in_dependencies Y r = false ->
      FieldDependency.mk (FieldDependency.id r) (FieldDependency.dependant r)
        None (Some L) (Some (Field.name Y)) ∈ rows db1
      /\ (Field.name Y' = Field.name Y ->
          Field.link_row_table L = Some (Field.table Y') ->
          circular_reference_checker (rows db1) (FieldDependency.dependant r) Y' = false ->
          FieldDependency.mk (FieldDependency.id r) (FieldDependency.dependant r)
            (Some Y') (Some L) None ∈ rows (exec (repair Y') db1)))
  /\ (forall r,
        r ∈ rows db ->
        in_dependencies Y r = false ->
        in_dependants Y r = false ->
        in_vias Y r = false ->
        r ∈ rows db1).
Proof.
  intros Hpk db1.
  pose proof (break_dependencies_for_field_pk_unique Y db Hpk) as Hpk1.
  fold db1 in Hpk1.
  assert (Hrows : rows db1 = rows (break_dependencies_for_field Y db).2) by done.
  rewrite break_dependencies_for_field_rows in Hrows. simpl in Hrows.
  split.
  - intros r L Hr Hvia HL Hdep Hout.
    assert (Hbroken :
      FieldDependency.mk (FieldDependency.id r) (FieldDependency.dependant r)
        None (Some L) (Some (Field.name Y)) ∈ rows db1).
    { rewrite Hrows. apply list_elem_of_fmap. exists r. split.
      - unfold in_vias. rewrite Hvia, Hdep. simpl. unfold is_field.
        rewrite bool_decide_eq_false_2 by done. by rewrite andb_false_r.
      - apply elem_of_filter_bool. by rewrite Hout. }
    split; [done |].
    intros Hname Hlink Hcheck. unfold exec.
    rewrite (update_fields_with_broken_references_rows _ _ Hpk1). simpl.
    apply list_elem_of_fmap. eexists. split; [| exact Hbroken].
    unfold repairable, in_repair_scope. simpl.
    rewrite Hcheck, Hname, Hlink.
    rewrite (bool_decide_eq_true_2 (Some (Field.table Y') = _)) by done.
    rewrite (bool_decide_eq_true_2 (Some (Field.name Y) = _)) by done.
    by rewrite orb_true_r.
  - intros r Hr Hout Hdep Hvia. rewrite Hrows.
    apply list_elem_of_fmap. exists r. split.
    + by rewrite Hvia, Hdep, andb_false_r.
    + apply elem_of_filter_bool. by rewrite Hout.
Qed.

(** *** Rebuilding *)

Lemma check_loop (field_instance : Field.t) (l : list FieldDependency.t) (db : DB) :
  for_each
    (fun (_ : unit) dep =>
       match FieldDependency.dependency dep with
       | Some dependency =>
           let! circular :=
             will_cause_circular_dep circular_reference_checker field_instance dependency in
           if circular then raise CircularFieldDependencyError else ret tt
       | None => ret tt
       end)
    tt l db
  = if existsb (closes_cycle circular_reference_checker field_instance db) l
    then (inl CircularFieldDependencyError, db)
    else (inr tt, db).
Proof.
  induction l as [| dep l IH]; simpl; [done |].
  unfold bind at 1, closes_cycle at 1.
  destruct (FieldDependency.dependency dep) as [d |]; simpl.
  - unfold bind at 1, will_cause_circular_dep at 1.
    by destruct (circular_reference_checker (rows db) field_instance d).
  - unfold ret at 1. done.
Qed.

Lemma rebuild_field_dependencies_eq (field_instance : Field.t)
    (field_lookup_cache : FieldCache) (db : DB) :
  rebuild field_instance field_lookup_cache db
  = match constructed get_field_dependencies field_instance field_lookup_cache with
    | inl e => (inl e, db)
    | inr new_dependencies =>
        if existsb (closes_cycle circular_reference_checker field_instance db)
             (to_create field_instance db new_dependencies)
        then (inl CircularFieldDependencyError, db)
        else
          (inr tt,
           {| rows :=
                List.filter
                  (fun r =>
                     negb (bool_decide
                             (FieldDependency.id r
                              ∈ FieldDependency.id
                                  <$> to_delete field_instance db new_dependencies)))
                  (rows db
                   ++ objects.assign_ids (next_id db)
                        (to_create field_instance db new_dependencies));
              next_id := next_id db + length (to_create field_instance db new_dependencies) |})
    end.
Proof.
  unfold rebuild_field_dependencies, constructed.
  destruct (match get_field_dependencies field_instance field_lookup_cache with
            | Some l => construct_dependencies field_instance l field_lookup_cache []
            | None => inr []
            end) as [e | new_dependencies]; [done |].
  unfold bind at 1. simpl. unfold bind at 1. simpl.
  rewrite diff_dependencies_eq by apply dict_comprehension_NoDup.
  unfold bind at 1. rewrite check_loop. simpl.
  fold (dependencies field_instance db).
  fold (to_create field_instance db new_dependencies).
  destruct (existsb _ _); [done |].
  unfold bind, objects.bulk_create, objects.delete. simpl.
  done.
Qed.

Lemma str_resolved (v e : FieldDependency.t) (d : Field.t) :
  FieldDependency.str v = FieldDependency.str e ->
  FieldDependency.dependency e = Some d ->
  exists d', FieldDependency.dependency v = Some d' /\ Field.id d' = Field.id d.
Proof.
  unfold FieldDependency.str. intros Hstr He. rewrite He in Hstr.
  destruct (FieldDependency.dependency v) as [d' |]; [| done].
  injection Hstr as _ Hid _. eauto.
Qed.

(** C1: take the edges the descriptors of a field construct.  If one of
    them is new, resolved, and refused by the cycle check, the rebuild
    raises [CircularFieldDependencyError] and the table is left as it was:
    nothing is created, nothing is deleted.  If no new resolved edge is
    refused, the rebuild goes through: broken edges are never put to the
    check.  The check looks at fields through their ids. *)
Theorem rebuild_circular_raises_and_persists_nothing
    (field_instance : Field.t) (field_lookup_cache : FieldCache) (db : DB)
    (new_dependencies : list FieldDependency.t) :
  (forall rs a b b', Field.id b = Field.id b' ->
     circular_reference_checker rs a b = circular_reference_checker rs a b') ->
  constructed get_field_dependencies field_instance field_lookup_cache
  = inr new_dependencies ->
  ((exists e d,
       e ∈ new_dependencies /\ is_new field_instance db e
       /\ FieldDependency.dependency e = Some d
       /\ circular_reference_checker (rows db) field_instance d = true) ->
   rebuild field_instance field_lookup_cache db = (inl CircularFieldDependencyError, db))
  /\ (~ (exists e d,
           e ∈ new_dependencies /\ is_new field_instance db e
           /\ FieldDependency.dependency e = Some d
           /\ circular_reference_checker (rows db) field_instance d = true) ->
      run (rebuild field_instance field_lookup_cache) db = inr tt).
Proof.
  intros Hids Hnew. unfold run. rewrite rebuild_field_dependencies_eq, Hnew. split.
  - intros (e & d & He & Hfresh & Hdep & Hcheck).
    destruct (to_create_covers _ _ _ _ He Hfresh) as (v & Hv & Hstr).
    destruct (str_resolved _ _ _ Hstr Hdep) as (d' & Hdep' & Hid).
    assert (Hex : existsb (closes_cycle circular_reference_checker field_instance db)
                    (to_create field_instance db new_dependencies) = true).
    { apply existsb_exists. exists v. split; [by apply list_elem_of_In |].
      unfold closes_cycle. rewrite Hdep'. by rewrite (Hids _ _ d' d Hid). }
    by rewrite Hex.
  - intros Hnone.
    destruct (existsb _ _) eqn:Hex; [| done]. exfalso. apply Hnone.
    apply existsb_exists in Hex as (v & Hv & Hcheck).
    apply list_elem_of_In, elem_of_to_create in Hv as [Hin Hfresh].
    apply elem_of_dict_comprehension in Hin as [Hin _].
    unfold closes_cycle in Hcheck.
    destruct (FieldDependency.dependency v) as [d |] eqn:Hdep; [| done].
    by exists v, d.
Qed.

Lemma rebuild_success_inv (field_instance : Field.t) (field_lookup_cache : FieldCache)
    (db db' : DB) :
  rebuild field_instance field_lookup_cache db = (inr tt, db') ->
  exists new_dependencies,
    constructed get_field_dependencies field_instance field_lookup_cache
    = inr new_dependencies
    /\ existsb (closes_cycle circular_reference_checker field_instance db)
         (to_create field_instance db new_dependencies) = false
    /\ rows db'
       = List.filter
           (fun r =>
              negb (bool_decide
                      (FieldDependency.id r
                       ∈ FieldDependency.id <$> to_delete field_instance db new_dependencies)))
           (rows db
            ++ objects.assign_ids (next_id db) (to_create field_instance db new_dependencies))
    /\ next_id db' = next_id db + length (to_create field_instance db new_dependencies).
Proof.
  rewrite rebuild_field_dependencies_eq.
  destruct (constructed _ _ _) as [e | new_dependencies]; [done |].
  destruct (existsb _ _) eqn:Hex; [done |]. intros [= <-]. by exists new_dependencies.
Qed.

(** C9, as the code has it: a rebuild inserts no edge under a key that an
    outbound edge of the field already has, and no two edges under one key;
    when the outbound edges of the field had pairwise distinct keys before
    a successful rebuild, they have pairwise distinct keys after it,
    whatever duplicates the descriptor list holds. *)
Theorem rebuild_keeps_keys_distinct
    (field_instance : Field.t) (field_lookup_cache : FieldCache) (db db' : DB) :
  NoDup (FieldDependency.str <$> dependencies field_instance db) ->
  rebuild field_instance field_lookup_cache db = (inr tt, db') ->
  NoDup (FieldDependency.str <$> dependencies field_instance db').
Proof.
  intros Hnd (new_dependencies & Hnew & _ & Hrows & _)%rebuild_success_inv.
  unfold dependencies at 1. rewrite Hrows.
  rewrite filter_filter_andb.
  erewrite filter_ext; [| intros r; apply andb_comm].
  rewrite <- filter_filter_andb. apply NoDup_fmap_filter.
  rewrite List.filter_app, fmap_app. fold (dependencies field_instance db).
  apply NoDup_app. split; [done |]. split.
  - intros k Hk (r & -> & Hr)%list_elem_of_fmap.
    apply elem_of_filter_bool in Hr as [Hr _].
    apply elem_of_assign_ids in Hr as (v & m & Hv & _ & ->).
    apply elem_of_to_create in Hv as [_ Hfresh]. by apply Hfresh.
  - apply NoDup_fmap_filter. rewrite assign_ids_str. apply to_create_keys_NoDup.
Qed.

(** X24: the rebuild is idempotent where its per-key dictionary sees every
    row: when primary keys are unique and drawn from the sequence, and the
    outbound edges of the field have pairwise distinct keys, a successful
    rebuild followed by a second rebuild with the same descriptors and
    cache leaves the table exactly as the first one left it: no row is
    inserted, no row is deleted, every row keeps its id. *)
Theorem rebuild_twice_changes_nothing
    (field_instance : Field.t) (field_lookup_cache : FieldCache) (db db1 : DB) :
  pk_unique db ->
  pk_below_sequence db ->
  NoDup (FieldDependency.str <$> dependencies field_instance db) ->
  rebuild field_instance field_lookup_cache db = (inr tt, db1) ->
  rebuild field_instance field_lookup_cache db1 = (inr tt, db1).
Proof.
  intros Hpk Hseq Hnd Hfirst.
  destruct (rebuild_success_inv _ _ _ _ Hfirst)
    as (new_dependencies & Hnew & _ & Hrows & Hnext).
  assert (Hstale_old : forall r, r ∈ to_delete field_instance db new_dependencies ->
            r ∈ rows db
            /\ FieldDependency.str r ∉ FieldDependency.str <$> new_dependencies).
  { intros r [Hin Hk]%elem_of_to_delete. split; [| done].
    apply elem_of_dict_comprehension in Hin as [Hin _].
    by apply elem_of_filter_bool in Hin as [Hin _]. }
  (* the outbound edges after the first rebuild carry exactly the new keys *)
  assert (Hkeys : forall k,
            k ∈ FieldDependency.str <$> dependencies field_instance db1 <->
            k ∈ FieldDependency.str <$> new_dependencies).
  { intros k. split.
    - intros (r & -> & Hr)%list_elem_of_fmap.
      apply elem_of_filter_bool in Hr as [Hr Hout]. rewrite Hrows in Hr.
      apply elem_of_filter_bool in Hr as [Hr Hkept].
      apply negb_true_iff, bool_decide_eq_false_1 in Hkept.
      apply elem_of_app in Hr as [Hr | Hr].
      + destruct (decide (FieldDependency.str r ∈ FieldDependency.str <$> new_dependencies))
          as [? | Hstale]; [done |].
        exfalso. apply Hkept. apply list_elem_of_fmap_2.
        apply elem_of_to_delete. split; [| done].
        rewrite (dict_comprehension_distinct _ _ Hnd).
        apply (list_elem_of_fmap_2 (fun x => (FieldDependency.str x, x))).
        by apply elem_of_filter_bool.
      + apply elem_of_assign_ids in Hr as (v & m & Hv & _ & ->).
        apply elem_of_to_create in Hv as [Hv _].
        apply elem_of_dict_comprehension in Hv as [Hv _].
        rewrite str_set_id. by apply list_elem_of_fmap_2.
    - intros (e & -> & He)%list_elem_of_fmap.
      destruct (decide (FieldDependency.str e
                        ∈ FieldDependency.str <$> dependencies field_instance db))
        as [Hold | Hfresh].
      + apply list_elem_of_fmap in Hold as (r & Hstr & Hr). rewrite Hstr.
        apply list_elem_of_fmap_2.
        apply elem_of_filter_bool in Hr as [Hr Hout].
        apply elem_of_filter_bool. split; [| done]. rewrite Hrows.
        apply elem_of_filter_bool. split; [apply elem_of_app; by left |].
        apply negb_true_iff, bool_decide_eq_false_2.
        intros (r' & Hid & Hr')%list_elem_of_fmap.
        destruct (Hstale_old _ Hr') as [Hr'd Hk].
        assert (r = r') as <- by (by apply (NoDup_fmap_eq FieldDependency.id (rows db))).
        apply Hk. rewrite <- Hstr. by apply list_elem_of_fmap_2.
      + destruct (to_create_covers _ _ _ _ He Hfresh) as (v & Hv & <-).
        destruct (assign_ids_elem_of (next_id db) _ _ Hv) as (m & Hm & Hel).
        rewrite <- (str_set_id (Some m) v). apply list_elem_of_fmap_2.
        apply elem_of_filter_bool. split.
        * rewrite Hrows. apply elem_of_filter_bool.
          split; [apply elem_of_app; by right |].
          apply negb_true_iff, bool_decide_eq_false_2.
          intros (r' & Hid & Hr')%list_elem_of_fmap. simpl in Hid.
          destruct (Hstale_old _ Hr') as [Hr'd _].
          unfold pk_below_sequence in Hseq.
          destruct (proj1 (Forall_forall _ _) Hseq _ Hr'd) as (n & Hn & Hlt).
          rewrite Hn in Hid. injection Hid as ->. lia.
        * unfold in_dependencies. simpl.
          apply elem_of_to_create in Hv as [Hv _].
          apply elem_of_dict_comprehension in Hv as [Hv _].
          rewrite (constructed_dependant _ _ _ _ _ Hnew Hv).
          by apply bool_decide_eq_true_2. }
  assert (Hcreate : to_create field_instance db1 new_dependencies = []).
  { unfold to_create. rewrite filter_none; [done |]. intros [k v] Hin. simpl.
    apply bool_decide_eq_false_2. intros Hk. apply Hk.
    apply elem_of_dict_comprehension_keys, Hkeys.
    apply elem_of_dict_comprehension_keys.
    by apply (list_elem_of_fmap_2 fst) in Hin. }
  assert (Hdelete : to_delete field_instance db1 new_dependencies = []).
  { unfold to_delete. rewrite filter_none; [done |]. intros [k v] Hin. simpl.
    apply bool_decide_eq_false_2. intros Hk. apply Hk.
    apply elem_of_dict_comprehension_keys, Hkeys.
    apply elem_of_dict_comprehension_keys.
    by apply (list_elem_of_fmap_2 fst) in Hin. }
  rewrite rebuild_field_dependencies_eq, Hnew, Hcreate, Hdelete. simpl.
  rewrite app_nil_r, Nat.add_0_r.
  rewrite filter_all.
  - by destruct db1.
  - intros r _.
    first [done | apply negb_true_iff, bool_decide_eq_false_2, not_elem_of_nil].
Qed.

(** *** Link row fields *)

(** X4: What a single descriptor can construct across tables: when the cache
    answers a lookup in a table with a field of that table, a lone
    constructed edge whose target lives outside the table of the dependant
    is routed via the dependant itself. *)
Lemma construct_dependency_lone_edge_across_tables
    (field_instance : Field.t) (d : Descriptor) (cache : FieldCache)
    (e : FieldDependency.t) (p : Field.t) :
  (forall t n f, lookup_by_name cache t n = Some f -> Field.table f = t) ->
  _construct_dependency field_instance d cache = inr [e] ->
  FieldDependency.dependency e = Some p ->
  Field.table p <> Field.table field_instance ->
  exists v, FieldDependency.via e = Some v
            /\ Field.id v = Field.id field_instance
            /\ Field.link_row_table v = Some (Field.table p).
Proof.
  intros Hcache Hc Hdep Hother. unfold _construct_dependency in Hc.
  destruct d as [n | vn n]; simpl in Hc.
  - destruct (bool_decide (Field.name field_instance = n) && _); [done |].
    destruct (lookup_by_name cache (Field.table field_instance) n) as [f |] eqn:Hf;
      injection Hc as <-; simpl in Hdep; [| done].
    injection Hdep as ->. by apply Hcache in Hf.
  - rewrite andb_false_r in Hc.
    destruct (lookup_by_name cache (Field.table field_instance) vn) as [v |] eqn:Hv;
      [| injection Hc as <-; done].
    destruct (Field.link_row_table v) as [t |] eqn:Ht.
    + destruct (lookup_by_name cache t n) as [f |] eqn:Hf;
        [| injection Hc as <-; done].
      destruct (bool_decide (Field.id field_instance <> Field.id v)) eqn:Hne;
        [done |].
      injection Hc as <-. simpl in Hdep. injection Hdep as ->.
      exists v. split; [reflexivity |]. split.
      * apply bool_decide_eq_false_1 in Hne.
        destruct (decide (Field.id v = Field.id field_instance)); [done |].
        exfalso. apply Hne. congruence.
      * apply Hcache in Hf. by rewrite Hf.
    + injection Hc as <-. simpl in Hdep. injection Hdep as ->. by apply Hcache in Hv.
Qed.

(** C3, as the code has it: let L be a link row field that resolves under
    its own name in its table, linking to a table where the name of P
    resolves to P, and let the type of L yield the pair of the two names.
    Rebuilding L from no outbound edges gives exactly one edge, resolved,
    from L to P, and routed via L itself; L still has no dependants. *)
Theorem rebuild_link_row_field_depends_via_itself
    (L P : Field.t) (linked_table : nat) (field_lookup_cache : FieldCache) (db : DB) :
  Field.link_row_table L = Some linked_table ->
  lookup_by_name field_lookup_cache (Field.table L) (Field.name L) = Some L ->
  lookup_by_name field_lookup_cache linked_table (Field.name P) = Some P ->
  Field.id P <> Field.id L ->
  get_field_dependencies L field_lookup_cache
  = Some [DTuple (Field.name L) (Field.name P)] ->
  dependencies L db = [] ->
  dependants L db = [] ->
  circular_reference_checker (rows db) L P = false ->
  exists db',
    rebuild L field_lookup_cache db = (inr tt, db')
    /\ dependencies L db'
       = [FieldDependency.mk (Some (next_id db)) L (Some P) (Some L) None]
    /\ dependants L db' = [].
Proof.
  intros Hlink HL HP Hne Hdescs Hout Hin Hcheck.
  assert (Hnew : constructed get_field_dependencies L field_lookup_cache
                 = inr [FieldDependency.new L (Some P) (Some L) None]).
  { unfold constructed. rewrite Hdescs. simpl. unfold _construct_dependency. simpl.
    rewrite andb_false_r, HL, Hlink, HP.
    rewrite (bool_decide_eq_false_2 (Field.id L <> Field.id L)) by (intros Hc; by apply Hc).
    done. }
  assert (Hcreate : to_create L db [FieldDependency.new L (Some P) (Some L) None]
                    = [FieldDependency.new L (Some P) (Some L) None]).
  { unfold to_create. rewrite Hout. done. }
  assert (Hdelete : to_delete L db [FieldDependency.new L (Some P) (Some L) None] = []).
  { unfold to_delete. rewrite Hout. done. }
  eexists. rewrite rebuild_field_dependencies_eq, Hnew, Hcreate, Hdelete.
  simpl. unfold closes_cycle. simpl. rewrite Hcheck. simpl.
  split; [reflexivity |].
  unfold dependencies, dependants. simpl.
  rewrite (filter_all (fun _ => true)) by (intros r _; reflexivity).
  rewrite !List.filter_app. fold (dependencies L db) (dependants L db).
  rewrite Hout, Hin. simpl. unfold in_dependencies, in_dependants. simpl.
  unfold is_field. rewrite bool_decide_eq_true_2 by done.
  rewrite bool_decide_eq_false_2 by done. done.
Qed.
End Properties.


(** ** The properties on the fixtures *)

Ltac by_computation := apply (bool_decide_unpack _); vm_compute; exact I.

Lemma reachability_checker_by_id rs a b b' :
  Field.id b = Field.id b' -> reachability_checker rs a b = reachability_checker rs a b'.
Proof. intros Hid. unfold reachability_checker. by rewrite Hid. Qed.

(** With [first -> second] in the table, rebuilding [second], which names
    [first], raises and leaves the table alone. *)
Lemma rebuild_circular_raises_and_persists_nothing_witness :
  rebuild_fixture formula_registry second_formula_field formula_cache formula_db
  = (inl CircularFieldDependencyError, formula_db).
Proof.
  apply (rebuild_circular_raises_and_persists_nothing reachability_checker
           (descriptors_by_id formula_registry) second_formula_field formula_cache
           formula_db
           [FieldDependency.new second_formula_field (Some first_formula_field) None None]).
  - apply reachability_checker_by_id.
  - reflexivity.
  - exists (FieldDependency.new second_formula_field (Some first_formula_field) None None),
      first_formula_field.
    split; [by_computation |]. split; [unfold is_new; by_computation |].
    split; reflexivity.
Defined.

(** Rebuilding [third], which names [first] twice, a second time. *)
Lemma rebuild_twice_changes_nothing_witness :
  let db1 :=
    exec (rebuild_fixture formula_registry third_formula_field formula_cache) formula_db in
  rebuild_fixture formula_registry third_formula_field formula_cache db1 = (inr tt, db1).
Proof.
  apply (rebuild_twice_changes_nothing reachability_checker
           (descriptors_by_id formula_registry) third_formula_field formula_cache
           formula_db).
  - unfold pk_unique. by_computation.
  - unfold pk_below_sequence. vm_compute.
    repeat constructor. exists 1. split; [reflexivity | lia].
  - by_computation.
  - reflexivity.
Defined.

(** The link row field of the two linked tables. *)
Lemma rebuild_link_row_field_depends_via_itself_witness :
  exists db',
    rebuild_fixture linked_registry link_row_field linked_cache empty_db = (inr tt, db')
    /\ dependencies link_row_field db'
       = [FieldDependency.mk (Some 1) link_row_field (Some other_primary_field)
            (Some link_row_field) None]
    /\ dependants link_row_field db' = [].
Proof.
  apply (rebuild_link_row_field_depends_via_itself reachability_checker
           (descriptors_by_id linked_registry) link_row_field other_primary_field
           table_b linked_cache empty_db); try reflexivity.
  vm_compute. lia.
Defined.

(** Trashing the link row field of the trashing test. *)
Lemma break_dependencies_for_field_breaks_all_witness :
  rows (exec (break_dependencies_for_field link_row_field) trash_db)
  = [FieldDependency.mk (Some 2) text_field None None (Some (Field.name link_row_field));
     FieldDependency.mk (Some 3) text_field None None (Some (Field.name link_row_field))].
Proof.
  unfold exec.
  rewrite (break_dependencies_for_field_breaks_all link_row_field trash_db).
  - reflexivity.
  - intros r _ _. reflexivity.
Defined.

(** Restoring the link row field repairs the two edges broken under its
    name. *)
Lemma update_fields_with_broken_references_repairs_exactly_witness :
  exists repaired : bool,
    run (update_fields_with_broken_references reachability_checker link_row_field)
      lookup_db_link_trashed = inr repaired
    /\ (repaired = true <->
        exists r, r ∈ rows lookup_db_link_trashed
                  /\ repairable reachability_checker link_row_field
                       lookup_db_link_trashed r = true)
    /\ rows (exec (update_fields_with_broken_references reachability_checker link_row_field)
               lookup_db_link_trashed)
       = (fun r =>
            if repairable reachability_checker link_row_field lookup_db_link_trashed r
            then FieldDependency.mk (FieldDependency.id r) (FieldDependency.dependant r)
                   (Some link_row_field) (FieldDependency.via r) None
            else r) <$> rows lookup_db_link_trashed.
Proof.
  apply (update_fields_with_broken_references_repairs_exactly reachability_checker
           link_row_field lookup_db_link_trashed).
  unfold pk_unique. by_computation.
Defined.

(** [third] naming itself. *)
Lemma rebuild_self_reference_raises_witness :
  rebuild_fixture self_registry third_formula_field formula_cache formula_db
  = (inl SelfReferenceFieldDependencyError, formula_db).
Proof.
  apply (rebuild_self_reference_raises reachability_checker
           (descriptors_by_id self_registry) third_formula_field formula_cache
           [DName "first"; DName "third"] formula_db).
  - reflexivity.
  - by_computation.
Defined.

(** Deleting the target of the lookup field and restoring it. *)
Lemma break_target_keeps_via_then_repair_witness :
  FieldDependency.mk (Some 2) lookup_field None (Some link_row_field)
    (Some (Field.name target_field))
  ∈ rows (exec (break_dependencies_for_field target_field) target_db)
  /\ FieldDependency.mk (Some 2) lookup_field (Some target_field) (Some link_row_field) None
     ∈ rows (exec (update_fields_with_broken_references reachability_checker target_field)
               (exec (break_dependencies_for_field target_field) target_db))
  /\ FieldDependency.mk (Some 1) lookup_field (Some link_row_field) None None
     ∈ rows (exec (break_dependencies_for_field target_field) target_db).
Proof.
  assert (Hpk : pk_unique target_db) by (unfold pk_unique; by_computation).
  destruct (break_target_keeps_via_then_repair reachability_checker
              target_field target_field target_db Hpk) as [Hedge Hframe].
  destruct (Hedge
              (FieldDependency.mk (Some 2) lookup_field (Some target_field)
                 (Some link_row_field) None)
              link_row_field) as [Hbroken Hrepair];
    [by_computation | reflexivity | vm_compute; lia | reflexivity | reflexivity |].
  split; [exact Hbroken |]. split.
  - apply Hrepair; reflexivity.
  - apply (Hframe (FieldDependency.mk (Some 1) lookup_field (Some link_row_field) None None));
      [by_computation | reflexivity | reflexivity | reflexivity].
Defined.

(** The lookup field once its link is trashed, and once only its target
    is. *)
Lemma construct_dependency_unresolved_via_pair_witness :
  _construct_dependency lookup_field (DTuple "link" "target") cache_without_link
  = inr [FieldDependency.mk None lookup_field None None (Some "link"%string)]
  /\ _construct_dependency lookup_field (DTuple "link" "missing") linked_cache
     = inr [FieldDependency.mk None lookup_field None (Some link_row_field)
              (Some "missing"%string)].
Proof.
  split.
  - apply (construct_dependency_unresolved_via_pair lookup_field "link" "target"
             cache_without_link).
    reflexivity.
  - apply (proj2 (construct_dependency_unresolved_via_pair lookup_field "link" "missing"
                    linked_cache) link_row_field table_b); reflexivity.
Defined.

(** [third] names [first] twice: one edge under that key. *)
Lemma rebuild_keeps_keys_distinct_witness :
  NoDup (FieldDependency.str
           <$> dependencies third_formula_field
                 (exec (rebuild_fixture formula_registry third_formula_field formula_cache)
                    formula_db)).
Proof.
  apply (rebuild_keeps_keys_distinct reachability_checker
           (descriptors_by_id formula_registry) third_formula_field formula_cache
           formula_db).
  - by_computation.
  - reflexivity.
Defined.

(** The edge broken by trashing the link has no via; restoring the link
    repairs it, and the link lives in the table of the lookup field. *)
Lemma repair_of_edge_without_via_witness :
  Field.table lookup_field = Field.table link_row_field.
Proof.
  assert (Hpk : pk_unique lookup_db_link_trashed) by (unfold pk_unique; by_computation).
  destruct (repair_of_edge_without_via reachability_checker link_row_field
              lookup_db_link_trashed Hpk) as (_ & _ & Hrepaired).
  apply (Hrepaired 0
           (FieldDependency.mk (Some 1) lookup_field None None (Some "link"%string))).
  - reflexivity.
  - reflexivity.
  - vm_compute. discriminate.
Defined.

(** ** Where the code departs *)

(** C2: rebuilding a second time, with nothing changed in between, should
    insert and delete nothing; the code does not meet this.  Once the link
    is trashed the lookup field has two broken edges under one key.  The
    lookup field is then edited to name the primary field: the first
    rebuild keeps one row per key in [current_deps_by_str], so it deletes
    one of the two only and leaves a stale edge behind, and the second
    rebuild deletes the other. *)
Lemma rebuild_twice_deletes_after_duplicates :
  let rebuild_edited :=
    rebuild_fixture edited_registry lookup_field cache_without_link in
  let db1 := exec rebuild_edited lookup_db_link_trashed in
  lookup_db_link_trashed
  = {| rows :=
         [FieldDependency.mk (Some 1) lookup_field None None (Some "link"%string);
          FieldDependency.mk (Some 2) lookup_field None None (Some "link"%string)];
       next_id := 3 |}
  /\ rebuild_edited lookup_db_link_trashed
     = (inr tt,
        {| rows :=
             [FieldDependency.mk (Some 1) lookup_field None None (Some "link"%string);
              FieldDependency.mk (Some 3) lookup_field (Some primary_field) None None];
           next_id := 4 |})
  /\ rebuild_edited db1
     = (inr tt,
        {| rows := [FieldDependency.mk (Some 3) lookup_field (Some primary_field) None None];
           next_id := 4 |})
  /\ rebuild_edited db1 <> (inr tt, db1).
Proof.
  repeat split; try reflexivity.
  vm_compute. discriminate.
Qed.

(** Against C3: the edge of the link row field is routed via the link row
    field itself, as the test of the link row rebuild reads it back from
    [link_row_field.vias]. *)
Lemma link_row_edge_is_not_direct :
  let db' := exec (rebuild_fixture linked_registry link_row_field linked_cache) empty_db in
  run (rebuild_fixture linked_registry link_row_field linked_cache) empty_db = inr tt
  /\ dependencies link_row_field db'
     = [FieldDependency.mk (Some 1) link_row_field (Some other_primary_field)
          (Some link_row_field) None]
  /\ ~ (exists r, dependencies link_row_field db' = [r] /\ FieldDependency.via r = None).
Proof.
  split; [reflexivity |]. split; [reflexivity |].
  intros (r & Hr & Hvia). vm_compute in Hr. injection Hr as <-. discriminate Hvia.
Qed.

(** Against C7: [target -> other] does not target the field that is broken,
    and breaking [target] deletes it; and a repair by a field that took the
    name of the target, and reads the lookup field back, is refused by the
    cycle check: the edge stays broken. *)
Lemma break_target_deletes_outbound_and_repair_is_gated :
  let lookup_to_link :=
    FieldDependency.mk (Some 1) lookup_field (Some link_row_field) None None in
  let target_to_other :=
    FieldDependency.mk (Some 3) target_field (Some other_field) None None in
  let broken_edge :=
    FieldDependency.mk (Some 2) lookup_field None (Some link_row_field)
      (Some (Field.name target_field)) in
  (rows target_db
   = [lookup_to_link;
      FieldDependency.mk (Some 2) lookup_field (Some target_field) (Some link_row_field) None;
      target_to_other]
   /\ in_dependants target_field target_to_other = false
   /\ rows (exec (break_dependencies_for_field target_field) target_db)
      = [lookup_to_link; broken_edge])
  /\ (Field.name recreated_target_field = Field.name target_field
      /\ Field.link_row_table link_row_field = Some (Field.table recreated_target_field)
      /\ rows target_db_recreated
         = [lookup_to_link; broken_edge;
            FieldDependency.mk (Some 4) recreated_target_field (Some back_link) None None;
            FieldDependency.mk (Some 5) recreated_target_field (Some lookup_field)
              (Some back_link) None]
      /\ update_fields_with_broken_references reachability_checker recreated_target_field
           target_db_recreated
         = (inr false, target_db_recreated)).
Proof. repeat split; reflexivity. Qed.

(** Against C9: with the link trashed and the descriptors of the lookup
    field unchanged, the rebuild succeeds and leaves the two broken edges
    of one key side by side. *)
Lemma rebuild_leaves_duplicate_keys :
  let rebuild_lookup := rebuild_fixture linked_registry lookup_field cache_without_link in
  lookup_db_link_trashed
  = {| rows :=
         [FieldDependency.mk (Some 1) lookup_field None None (Some "link"%string);
          FieldDependency.mk (Some 2) lookup_field None None (Some "link"%string)];
       next_id := 3 |}
  /\ rebuild_lookup lookup_db_link_trashed = (inr tt, lookup_db_link_trashed)
  /\ FieldDependency.str
       <$> dependencies lookup_field (exec rebuild_lookup lookup_db_link_trashed)
     = [BrokenKey 5 None (Some "link"%string); BrokenKey 5 None (Some "link"%string)]
  /\ ~ NoDup (FieldDependency.str
                <$> dependencies lookup_field (exec rebuild_lookup lookup_db_link_trashed)).
Proof.
  split; [reflexivity |]. split; [reflexivity |]. split; [reflexivity |].
  by_computation.
Qed.

(** ** Further properties of the module *)

Section Construction.
Variable circular_reference_checker :
  list FieldDependency.t -> Field.t -> Field.t -> bool.
Variable get_field_dependencies :
  Field.t -> FieldCache -> option (list Descriptor).

Local Abbreviation rebuild :=
  (rebuild_field_dependencies circular_reference_checker get_field_dependencies).

Lemma construct_dependency_shape field_instance d cache deps :
  _construct_dependency field_instance d cache = inr deps ->
  Forall (fun e => FieldDependency.id e = None
                   /\ FieldDependency.dependant e = field_instance
                   /\ edge_ok e = true) deps.
Proof.
  unfold _construct_dependency.
  destruct d as [n | vn n]; simpl; repeat case_match; intros [= <-];
    repeat (apply Forall_cons; split; [| try apply Forall_nil_2]);
    try apply Forall_nil_2;
    repeat split; unfold edge_ok, Field.isinstance_LinkRowField; simpl;
    by repeat match goal with H : Field.link_row_table _ = Some _ |- _ => rewrite H end.
Qed.

Lemma construct_dependencies_shape field_instance descs cache acc new_dependencies :
  construct_dependencies field_instance descs cache acc = inr new_dependencies ->
  Forall (fun e => FieldDependency.id e = None
                   /\ FieldDependency.dependant e = field_instance
                   /\ edge_ok e = true) acc ->
  Forall (fun e => FieldDependency.id e = None
                   /\ FieldDependency.dependant e = field_instance
                   /\ edge_ok e = true) new_dependencies.
Proof.
  revert acc. induction descs as [| d descs IH]; simpl; intros acc Hc Hacc.
  - by injection Hc as <-.
  - destruct (_construct_dependency field_instance d cache) as [e | deps] eqn:Hd; [done |].
    apply (IH _ Hc). apply Forall_app. split; [done |].
    by apply (construct_dependency_shape _ _ _ _ Hd).
Qed.

(** X1: Every edge the descriptors of a field construct is unsaved, has the
    field as dependant, is either resolved without a broken name or broken
    under a name, and is routed, if at all, via a link row field. *)
Theorem constructed_edges_are_well_formed
    (field_instance : Field.t) (field_lookup_cache : FieldCache)
    (new_dependencies : list FieldDependency.t) :
  constructed get_field_dependencies field_instance field_lookup_cache
  = inr new_dependencies ->
  Forall (fun e => FieldDependency.id e = None
                   /\ FieldDependency.dependant e = field_instance
                   /\ edge_ok e = true) new_dependencies.
Proof.
  unfold constructed.
  destruct (get_field_dependencies field_instance field_lookup_cache) as [descs |].
  - intros Hc. apply (construct_dependencies_shape _ _ _ _ _ Hc). apply Forall_nil_2.
  - intros [= <-]. apply Forall_nil_2.
Qed.

(** X2: One descriptor gives one edge, or two: the direct edge to a link row
    field other than the dependant, followed by the edge routed via it. *)
Theorem construct_dependency_one_or_two
    (field_instance : Field.t) (d : Descriptor) (field_lookup_cache : FieldCache)
    (deps : list FieldDependency.t) :
  _construct_dependency field_instance d field_lookup_cache = inr deps ->
  (exists e, deps = [e])
  \/ (exists via_field target_field,
        deps = [FieldDependency.new field_instance (Some via_field) None None;
                FieldDependency.new field_instance (Some target_field)
                  (Some via_field) None]
        /\ Field.id field_instance <> Field.id via_field
        /\ Field.isinstance_LinkRowField via_field = true).
Proof.
  unfold _construct_dependency.
  destruct d as [n | vn n]; simpl; repeat case_match; intros [= <-];
    try (left; eexists; reflexivity).
  right. eexists _, _. split; [reflexivity |]. split.
  - by match goal with H : bool_decide _ = true |- _ => apply bool_decide_eq_true_1 in H end.
  - unfold Field.isinstance_LinkRowField.
    by match goal with H : Field.link_row_table _ = Some _ |- _ => rewrite H end.
Qed.

(** X3: An edge routed via a field comes from a pair: the via is what the via
    name resolves to in the table of the dependant, a link row field, and
    the target of the edge is what the target name resolves to in the table
    the via links to; the edge is broken exactly when that name does not
    resolve, and then under that name. *)
Theorem construct_dependency_via_edge
    (field_instance : Field.t) (d : Descriptor) (field_lookup_cache : FieldCache)
    (deps : list FieldDependency.t) (e : FieldDependency.t) (via_field : Field.t) :
  _construct_dependency field_instance d field_lookup_cache = inr deps ->
  e ∈ deps ->
  FieldDependency.via e = Some via_field ->
  exists via_field_name dependency link_row_table,
    d = DTuple via_field_name dependency
    /\ lookup_by_name field_lookup_cache (Field.table field_instance) via_field_name
       = Some via_field
    /\ Field.link_row_table via_field = Some link_row_table
    /\ FieldDependency.dependency e
       = lookup_by_name field_lookup_cache link_row_table dependency
    /\ FieldDependency.broken_reference_field_name e
       = match FieldDependency.dependency e with
         | Some _ => None
         | None => Some dependency
         end.
Proof.
  unfold _construct_dependency.
  destruct d as [n | vn n]; simpl; repeat case_match; intros [= <-];
    rewrite ?app_nil_l, ?elem_of_cons, ?elem_of_nil; intros Hin;
    repeat destruct Hin as [Hin | Hin]; subst; simpl; try done;
    intros [= <-]; eexists _, _, _; repeat split; eauto.
  all: simpl in *; congruence.
Qed.

Lemma construct_dependencies_raises field_instance descs cache acc e :
  construct_dependencies field_instance descs cache acc = inl e ->
  DName (Field.name field_instance) ∈ descs.
Proof.
  revert acc. induction descs as [| d descs IH]; simpl; intros acc Hc; [done |].
  destruct (_construct_dependency field_instance d cache) as [e' | deps] eqn:Hd.
  - apply elem_of_cons. left. unfold _construct_dependency in Hd.
    destruct d as [n | vn n]; simpl in Hd.
    + rewrite andb_true_r in Hd. case_bool_decide as Hn; [by subst |].
      by repeat case_match.
    + rewrite andb_false_r in Hd. by repeat case_match.
  - apply elem_of_cons. right. by apply (IH _ Hc).
Qed.

(** X5: The rebuild raises [SelfReferenceFieldDependencyError] exactly when the
    descriptor list holds the bare name of the field: a pair never raises
    it, whatever it names. *)
Theorem rebuild_self_reference_iff
    (field_instance : Field.t) (field_lookup_cache : FieldCache) (db : DB) :
  run (rebuild field_instance field_lookup_cache) db
  = inl SelfReferenceFieldDependencyError
  <-> exists field_dependencies,
        get_field_dependencies field_instance field_lookup_cache = Some field_dependencies
        /\ DName (Field.name field_instance) ∈ field_dependencies.
Proof.
  unfold run. rewrite rebuild_field_dependencies_eq. unfold constructed. split.
  - destruct (get_field_dependencies field_instance field_lookup_cache) as [descs |].
    + destruct (construct_dependencies _ _ _ _) as [e | new_dependencies] eqn:Hc.
      * intros _. exists descs. split; [done |].
        by apply (construct_dependencies_raises _ _ _ _ _ Hc).
      * by destruct (existsb _ _).
    + by destruct (existsb _ _).
  - intros (descs & -> & Hin).
    by rewrite (construct_dependencies_self_reference _ _ _ _ Hin).
Qed.
End Construction.

Section BreakAndRepair.
Variable circular_reference_checker :
  list FieldDependency.t -> Field.t -> Field.t -> bool.

Local Abbreviation repair :=
  (update_fields_with_broken_references circular_reference_checker).

Lemma break_rows_unreferenced (field : Field.t) (db : DB) (r : FieldDependency.t) :
  r ∈ rows (exec (break_dependencies_for_field field) db) ->
  in_dependencies field r = false
  /\ in_dependants field r = false
  /\ Field.isinstance_LinkRowField field && in_vias field r = false.
Proof.
  unfold exec. rewrite break_dependencies_for_field_rows. simpl.
  intros (r0 & -> & Hr0)%list_elem_of_fmap.
  apply elem_of_filter_bool in Hr0 as [_ Hout]. apply negb_true_iff in Hout.
  destruct (Field.isinstance_LinkRowField field && in_vias field r0) eqn:Hvia.
  - by destruct (Field.isinstance_LinkRowField field).
  - destruct (in_dependants field r0) eqn:Hdep; simpl; [| done].
    split; [done |]. split; [done |]. exact Hvia.
Qed.

(** X6: Once a field is broken, no edge of the table has it as dependant or as
    dependency, and if it is a link row field no edge is routed via it. *)
Theorem break_leaves_no_reference (field : Field.t) (db : DB) :
  Forall
    (fun r =>
       in_dependencies field r = false
       /\ in_dependants field r = false
       /\ Field.isinstance_LinkRowField field && in_vias field r = false)
    (rows (exec (break_dependencies_for_field field) db)).
Proof.
  unfold exec. rewrite break_dependencies_for_field_rows. simpl.
  apply Forall_fmap, Forall_forall. intros r Hr. simpl.
  apply elem_of_filter_bool in Hr as [_ Hout]. apply negb_true_iff in Hout.
  destruct (Field.isinstance_LinkRowField field) eqn:Hlink; simpl.
  - destruct (in_vias field r) eqn:Hvia; [done |].
    by destruct (in_dependants field r) eqn:Hdep.
  - by destruct (in_dependants field r) eqn:Hdep.
Qed.

(** X7: Breaking a field twice is breaking it once: the second break finds
    nothing to delete and nothing to rewrite. *)
Theorem break_twice_is_break_once (field : Field.t) (db : DB) :
  break_dependencies_for_field field (exec (break_dependencies_for_field field) db)
  = (inr tt, exec (break_dependencies_for_field field) db).
Proof.
  rewrite (break_dependencies_for_field_rows field (exec _ db)).
  pose proof (break_rows_unreferenced field db) as Hun.
  destruct (exec (break_dependencies_for_field field) db) as [rs n]. simpl in *.
  f_equal. f_equal.
  rewrite filter_all by (intros r Hr; destruct (Hun r Hr) as [-> _]; done).
  rewrite <- (list_fmap_id rs) at 2. apply list_fmap_ext.
  intros i r Hr. apply list_elem_of_lookup_2 in Hr.
  destruct (Hun r Hr) as (_ & -> & ->). done.
Qed.

(** X8: Breaking keeps every edge in one of its two states: what it rewrites
    becomes a broken edge under the name of the field, without target, and
    a via is only ever removed. *)
Theorem break_keeps_edges_ok (field : Field.t) (db : DB) :
  edges_ok db -> edges_ok (exec (break_dependencies_for_field field) db).
Proof.
  unfold edges_ok, exec. rewrite break_dependencies_for_field_rows. simpl.
  intros Hok. apply Forall_fmap, Forall_forall. intros r Hr.
  apply elem_of_filter_bool in Hr as [Hr _].
  pose proof (proj1 (Forall_forall _ _) Hok r Hr) as Hr_ok. simpl.
  destruct (Field.isinstance_LinkRowField field && in_vias field r); [done |].
  destruct (in_dependants field r); [| done].
  unfold edge_ok in *. simpl. by apply andb_prop in Hr_ok as [_ ->].
Qed.

Lemma repair_unfold (field : Field.t) (db : DB) :
  repair field db
  = let updated_deps :=
      FieldDependency.set_dependency (Some field) None
        <$> List.filter
              (fun r =>
                 (Q_dependant_table field r || Q_via_link_row_table field r)
                 && negb (circular_reference_checker (rows db)
                            (FieldDependency.dependant r) field))
              (rows db) in
    (inr (bool_decide (0 < length updated_deps)),
     {| rows :=
          (fun r =>
             match List.find
                     (fun o => bool_decide (FieldDependency.id o = FieldDependency.id r))
                     updated_deps with
             | Some o =>
                 FieldDependency.set_dependency (FieldDependency.dependency o)
                   (FieldDependency.broken_reference_field_name o) r
             | None => r
             end) <$> rows db;
        next_id := next_id db |}).
Proof.
  unfold update_fields_with_broken_references.
  unfold bind at 1. unfold objects.filter at 1.
  unfold bind at 1. rewrite repair_loop. simpl.
  unfold bind, objects.bulk_update, ret. simpl.
  by rewrite filter_filter_andb.
Qed.

Lemma bulk_update_frame (field : Field.t) (updated rs : list FieldDependency.t) :
  Forall2
    (fun r r' => r' = r \/ r' = FieldDependency.set_dependency (Some field) None r)
    rs
    ((fun r =>
        match List.find
                (fun o => bool_decide (FieldDependency.id o = FieldDependency.id r))
                (FieldDependency.set_dependency (Some field) None <$> updated) with
        | Some o =>
            FieldDependency.set_dependency (FieldDependency.dependency o)
              (FieldDependency.broken_reference_field_name o) r
        | None => r
        end) <$> rs).
Proof.
  induction rs as [| r rs IH]; simpl; [constructor |].
  constructor; [| exact IH].
  destruct (List.find _ _) as [o |] eqn:Hfind; [| by left].
  apply find_some in Hfind as [Ho _].
  apply list_elem_of_In, list_elem_of_fmap in Ho as (o' & -> & _). by right.
Qed.

(** X9: A repair never inserts or deletes a row and never moves one: each row
    is, in its place, either what it was or the same row resolved to the
    field, its broken name cleared; row id, dependant and via are never
    written, and no primary key is drawn. *)
Theorem repair_only_resolves (field : Field.t) (db : DB) :
  Forall2
    (fun r r' =>
       r' = r
       \/ r' = FieldDependency.mk (FieldDependency.id r) (FieldDependency.dependant r)
                 (Some field) (FieldDependency.via r) None)
    (rows db) (rows (exec (repair field) db))
  /\ next_id (exec (repair field) db) = next_id db.
Proof.
  unfold exec. rewrite repair_unfold. simpl. split; [| done].
  apply bulk_update_frame.
Qed.

(** X10: A repair that finds no edge to resolve, because no edge in scope is
    broken under the name of the field or because the cycle check refuses
    every one that is, returns false and leaves the table as it was. *)
Theorem repair_without_match_changes_nothing (field : Field.t) (db : DB) :
  (forall r, r ∈ rows db -> repairable circular_reference_checker field db r = false) ->
  repair field db = (inr false, db).
Proof.
  intros Hnone. rewrite repair_unfold. simpl. rewrite filter_none.
  - simpl. rewrite list_fmap_id. by destruct db.
  - intros r Hr. rewrite repair_query_scope. apply (Hnone r Hr).
Qed.

(** X11: A repair keeps every edge in one of its two states: the edges it
    rewrites become resolved edges without a broken name, their via
    untouched. *)
Theorem repair_keeps_edges_ok (field : Field.t) (db : DB) :
  edges_ok db -> edges_ok (exec (repair field) db).
Proof.
  unfold edges_ok, exec. rewrite repair_unfold. simpl. intros Hok.
  pose proof (bulk_update_frame field
                (List.filter
                   (fun r =>
                      (Q_dependant_table field r || Q_via_link_row_table field r)
                      && negb (circular_reference_checker (rows db)
                                 (FieldDependency.dependant r) field))
                   (rows db))
                (rows db)) as Hframe.
  revert Hok. induction Hframe as [| r r' rs rs' Hr _ IH]; [done |].
  intros [Hr_ok Hrs]%Forall_cons. apply Forall_cons. split; [| by apply IH].
  destruct Hr as [-> | ->]; [done |].
  unfold edge_ok in *. simpl. by apply andb_prop in Hr_ok as [_ ->].
Qed.
End BreakAndRepair.

Section Rebuild.
Variable circular_reference_checker :
  list FieldDependency.t -> Field.t -> Field.t -> bool.
Variable get_field_dependencies :
  Field.t -> FieldCache -> option (list Descriptor).

Local Abbreviation rebuild :=
  (rebuild_field_dependencies circular_reference_checker get_field_dependencies).

Lemma to_delete_outbound (field : Field.t) (db : DB)
    (new_dependencies : list FieldDependency.t) (r : FieldDependency.t) :
  r ∈ to_delete field db new_dependencies ->
  r ∈ rows db /\ in_dependencies field r = true.
Proof.
  intros [Hin _]%elem_of_to_delete.
  apply elem_of_dict_comprehension in Hin as [Hin _].
  by apply elem_of_filter_bool in Hin.
Qed.

Lemma to_create_constructed (field : Field.t) (db : DB)
    (new_dependencies : list FieldDependency.t) (v : FieldDependency.t) :
  v ∈ to_create field db new_dependencies -> v ∈ new_dependencies.
Proof.
  intros [Hin _]%elem_of_to_create. by apply elem_of_dict_comprehension in Hin as [Hin _].
Qed.

Lemma assign_ids_ids (n : nat) (l : list FieldDependency.t) :
  FieldDependency.id <$> objects.assign_ids n l = Some <$> seq n (length l).
Proof. revert n. induction l as [| v l IH]; intros n; simpl; [done |]. by rewrite IH. Qed.

Lemma rebuild_rows (field_instance : Field.t) (field_lookup_cache : FieldCache) (db : DB) :
  exec (rebuild field_instance field_lookup_cache) db = db
  \/ exists new_dependencies,
       constructed get_field_dependencies field_instance field_lookup_cache
       = inr new_dependencies
       /\ rebuild field_instance field_lookup_cache db
          = (inr tt, exec (rebuild field_instance field_lookup_cache) db)
       /\ rows (exec (rebuild field_instance field_lookup_cache) db)
          = List.filter
              (fun r =>
                 negb (bool_decide
                         (FieldDependency.id r
                          ∈ FieldDependency.id
                              <$> to_delete field_instance db new_dependencies)))
              (rows db
               ++ objects.assign_ids (next_id db)
                    (to_create field_instance db new_dependencies))
       /\ next_id (exec (rebuild field_instance field_lookup_cache) db)
          = next_id db + length (to_create field_instance db new_dependencies).
Proof.
  unfold exec. rewrite rebuild_field_dependencies_eq.
  destruct (constructed _ _ _) as [e | new_dependencies]; [by left |].
  destruct (existsb _ _); [by left |]. right. by exists new_dependencies.
Qed.

(** X12: A rebuild of a field leaves the edges of every other field alone:
    the rows whose dependant is another field are, after the rebuild, the
    rows they were, in the order they were, whether the rebuild succeeds or
    raises. *)
Theorem rebuild_leaves_other_fields_alone
    (field_instance : Field.t) (field_lookup_cache : FieldCache) (db : DB) :
  pk_unique db ->
  List.filter (fun r => negb (in_dependencies field_instance r))
    (rows (exec (rebuild field_instance field_lookup_cache) db))
  = List.filter (fun r => negb (in_dependencies field_instance r)) (rows db).
Proof.
  intros Hpk.
  destruct (rebuild_rows field_instance field_lookup_cache db)
    as [-> | (new_dependencies & Hnew & _ & -> & _)]; [done |].
  rewrite filter_filter_andb.
  erewrite filter_ext; [| intros r; apply andb_comm].
  rewrite <- filter_filter_andb, List.filter_app.
  rewrite (filter_none _ (objects.assign_ids _ _)), app_nil_r.
  - apply filter_all. intros r [Hr Hother]%elem_of_filter_bool.
    apply negb_true_iff, bool_decide_eq_false_2.
    intros (r' & Hid & Hr')%list_elem_of_fmap.
    destruct (to_delete_outbound _ _ _ _ Hr') as [Hr'd Hout].
    assert (r = r') as <- by (by apply (NoDup_fmap_eq FieldDependency.id (rows db))).
    by rewrite Hout in Hother.
  - intros r (v & m & Hv & _ & ->)%elem_of_assign_ids.
    apply to_create_constructed in Hv.
    unfold in_dependencies. simpl.
    rewrite (constructed_dependant _ _ _ _ _ Hnew Hv).
    apply negb_false_iff. by apply bool_decide_eq_true_2.
Qed.

(** X13: A rebuild never rewrites a row: every row of the table after it is a
    row that was there before, as it was, or a row of the field inserted
    under a primary key drawn from the sequence; the sequence never goes
    back. *)
Theorem rebuild_never_rewrites_a_row
    (field_instance : Field.t) (field_lookup_cache : FieldCache) (db : DB) :
  Forall
    (fun r =>
       r ∈ rows db
       \/ exists m, FieldDependency.id r = Some m
                    /\ next_id db <= m
                    /\ FieldDependency.dependant r = field_instance)
    (rows (exec (rebuild field_instance field_lookup_cache) db))
  /\ next_id db <= next_id (exec (rebuild field_instance field_lookup_cache) db).
Proof.
  destruct (rebuild_rows field_instance field_lookup_cache db)
    as [-> | (new_dependencies & Hnew & _ & -> & ->)].
  - split; [| done]. apply Forall_forall. intros r Hr. by left.
  - split; [| lia]. apply Forall_forall.
    intros r [[Hr | Hr]%elem_of_app _]%elem_of_filter_bool; [by left |].
    right. apply elem_of_assign_ids in Hr as (v & m & Hv & Hm & ->).
    exists m. split; [done |]. split; [done |].
    apply to_create_constructed in Hv. simpl.
    by apply (constructed_dependant _ _ _ _ _ Hnew Hv).
Qed.

Lemma stale_edge_is_deleted (field : Field.t) (db : DB)
    (new_dependencies : list FieldDependency.t) (r : FieldDependency.t) :
  NoDup (FieldDependency.str <$> dependencies field db) ->
  r ∈ dependencies field db ->
  FieldDependency.str r ∉ FieldDependency.str <$> new_dependencies ->
  r ∈ to_delete field db new_dependencies.
Proof.
  intros Hnd Hr Hstale. apply elem_of_to_delete. split; [| done].
  rewrite (dict_comprehension_distinct _ _ Hnd).
  by apply (list_elem_of_fmap_2 (fun x => (FieldDependency.str x, x))).
Qed.

(** X14: When the outbound edges of the field have pairwise distinct keys, a
    successful rebuild leaves no stale edge: every outbound edge of the
    field then carries the key of a constructed edge. *)
Theorem rebuild_leaves_no_stale_edge
    (field_instance : Field.t) (field_lookup_cache : FieldCache) (db db' : DB) :
  NoDup (FieldDependency.str <$> dependencies field_instance db) ->
  rebuild field_instance field_lookup_cache db = (inr tt, db') ->
  exists new_dependencies,
    constructed get_field_dependencies field_instance field_lookup_cache
    = inr new_dependencies
    /\ forall r, r ∈ dependencies field_instance db' ->
                 FieldDependency.str r ∈ FieldDependency.str <$> new_dependencies.
Proof.
  intros Hnd (new_dependencies & Hnew & _ & Hrows & _)%rebuild_success_inv.
  exists new_dependencies. split; [done |].
  intros r [Hr Hout]%elem_of_filter_bool. rewrite Hrows in Hr.
  apply elem_of_filter_bool in Hr as [Hr Hkept].
  apply negb_true_iff, bool_decide_eq_false_1 in Hkept.
  apply elem_of_app in Hr as [Hr | Hr].
  - destruct (decide (FieldDependency.str r ∈ FieldDependency.str <$> new_dependencies))
      as [? | Hstale]; [done |].
    exfalso. apply Hkept. apply list_elem_of_fmap_2.
    apply stale_edge_is_deleted; [done | | done]. by apply elem_of_filter_bool.
  - apply elem_of_assign_ids in Hr as (v & m & Hv & _ & ->).
    apply to_create_constructed in Hv.
    rewrite str_set_id. by apply list_elem_of_fmap_2.
Qed.

(** X15: In a table whose primary keys are unique and drawn from the sequence, a
    successful rebuild leaves the field with an outbound edge for every
    constructed edge: an edge of the same key was kept, or one was
    inserted. *)
Theorem rebuild_provides_every_constructed_edge
    (field_instance : Field.t) (field_lookup_cache : FieldCache) (db db' : DB) :
  pk_unique db ->
  pk_below_sequence db ->
  rebuild field_instance field_lookup_cache db = (inr tt, db') ->
  exists new_dependencies,
    constructed get_field_dependencies field_instance field_lookup_cache
    = inr new_dependencies
    /\ forall e, e ∈ new_dependencies ->
                 FieldDependency.str e
                 ∈ FieldDependency.str <$> dependencies field_instance db'.
Proof.
  intros Hpk Hseq (new_dependencies & Hnew & _ & Hrows & _)%rebuild_success_inv.
  exists new_dependencies. split; [done |]. intros e He.
  destruct (decide (FieldDependency.str e
                    ∈ FieldDependency.str <$> dependencies field_instance db))
    as [Hold | Hfresh].
  - apply list_elem_of_fmap in Hold as (r & Hstr & Hr). rewrite Hstr.
    apply list_elem_of_fmap_2.
    apply elem_of_filter_bool in Hr as [Hr Hout].
    apply elem_of_filter_bool. split; [| done]. rewrite Hrows.
    apply elem_of_filter_bool. split; [apply elem_of_app; by left |].
    apply negb_true_iff, bool_decide_eq_false_2.
    intros (r' & Hid & Hr')%list_elem_of_fmap.
    destruct (to_delete_outbound _ _ _ _ Hr') as [Hr'd _].
    apply elem_of_to_delete in Hr' as [_ Hk].
    assert (r = r') as <- by (by apply (NoDup_fmap_eq FieldDependency.id (rows db))).
    apply Hk. rewrite <- Hstr. by apply list_elem_of_fmap_2.
  - destruct (to_create_covers _ _ _ _ He Hfresh) as (v & Hv & <-).
    destruct (assign_ids_elem_of (next_id db) _ _ Hv) as (m & Hm & Hel).
    rewrite <- (str_set_id (Some m) v). apply list_elem_of_fmap_2.
    apply elem_of_filter_bool. split.
    + rewrite Hrows. apply elem_of_filter_bool.
      split; [apply elem_of_app; by right |].
      apply negb_true_iff, bool_decide_eq_false_2.
      intros (r' & Hid & Hr')%list_elem_of_fmap. simpl in Hid.
      destruct (to_delete_outbound _ _ _ _ Hr') as [Hr'd _].
      destruct (proj1 (Forall_forall _ _) Hseq _ Hr'd) as (n & Hn & Hlt).
      rewrite Hn in Hid. injection Hid as ->. lia.
    + unfold in_dependencies. simpl.
      apply to_create_constructed in Hv.
      rewrite (constructed_dependant _ _ _ _ _ Hnew Hv).
      by apply bool_decide_eq_true_2.
Qed.
(** X16: A field whose type yields no descriptors, or none at all, ends with no
    outbound edge: when its outbound edges have pairwise distinct keys,
    the rebuild succeeds and deletes every one of them. *)
Theorem rebuild_without_descriptors_clears
    (field_instance : Field.t) (field_lookup_cache : FieldCache) (db : DB) :
  NoDup (FieldDependency.str <$> dependencies field_instance db) ->
  get_field_dependencies field_instance field_lookup_cache = None
  \/ get_field_dependencies field_instance field_lookup_cache = Some [] ->
  run (rebuild field_instance field_lookup_cache) db = inr tt
  /\ dependencies field_instance (exec (rebuild field_instance field_lookup_cache) db) = [].
Proof.
  intros Hnd Hnone.
  assert (Hnew : constructed get_field_dependencies field_instance field_lookup_cache
                 = inr []).
  { unfold constructed. by destruct Hnone as [-> | ->]. }
  assert (Hrun : rebuild field_instance field_lookup_cache db
                 = (inr tt, exec (rebuild field_instance field_lookup_cache) db)).
  { unfold exec. rewrite rebuild_field_dependencies_eq, Hnew. done. }
  split; [unfold run; by rewrite Hrun |].
  destruct (rebuild_rows field_instance field_lookup_cache db)
    as [Hsame | (new_dependencies & Hnew' & _ & Hrows & _)].
  - rewrite rebuild_field_dependencies_eq, Hnew in Hrun. simpl in Hrun.
    injection Hrun as Hrows. unfold dependencies. rewrite <- Hrows. simpl.
    rewrite app_nil_r. unfold to_create. simpl.
    rewrite filter_filter_andb. apply filter_none. intros r Hr.
    destruct (in_dependencies field_instance r) eqn:Hout; [| by rewrite andb_false_r].
    rewrite andb_true_r. apply negb_false_iff, bool_decide_eq_true_2.
    apply list_elem_of_fmap_2, stale_edge_is_deleted; [done | | apply not_elem_of_nil].
    by apply elem_of_filter_bool.
  - rewrite Hnew in Hnew'. injection Hnew' as <-.
    unfold dependencies. rewrite Hrows. unfold to_create. simpl. rewrite app_nil_r.
    rewrite filter_filter_andb. apply filter_none. intros r Hr.
    destruct (in_dependencies field_instance r) eqn:Hout; [| by rewrite andb_false_r].
    rewrite andb_true_r. apply negb_false_iff, bool_decide_eq_true_2.
    apply list_elem_of_fmap_2, stale_edge_is_deleted; [done | | apply not_elem_of_nil].
    by apply elem_of_filter_bool.
Qed.

(** X17: A rebuild keeps the primary keys of the table unique and below the
    sequence: the rows it inserts take the next keys of the sequence, one
    each. *)
Theorem rebuild_keeps_primary_keys
    (field_instance : Field.t) (field_lookup_cache : FieldCache) (db : DB) :
  pk_unique db ->
  pk_below_sequence db ->
  pk_unique (exec (rebuild field_instance field_lookup_cache) db)
  /\ pk_below_sequence (exec (rebuild field_instance field_lookup_cache) db).
Proof.
  intros Hpk Hseq.
  destruct (rebuild_rows field_instance field_lookup_cache db)
    as [-> | (new_dependencies & _ & _ & Hrows & Hnext)]; [done |].
  unfold pk_unique, pk_below_sequence. rewrite Hrows, Hnext.
  set (created := to_create field_instance db new_dependencies).
  split.
  - apply NoDup_fmap_filter. rewrite fmap_app, assign_ids_ids.
    apply NoDup_app. split; [done |]. split.
    + intros i (r & -> & Hr)%list_elem_of_fmap (m & Hid & Hm)%list_elem_of_fmap.
      destruct (proj1 (Forall_forall _ _) Hseq _ Hr) as (n & Hn & Hlt).
      rewrite Hn in Hid. injection Hid as ->.
      apply list_elem_of_In, in_seq in Hm. lia.
    + apply (NoDup_fmap_2 Some). apply NoDup_ListNoDup, seq_NoDup.
  - apply Forall_forall. intros r [[Hr | Hr]%elem_of_app _]%elem_of_filter_bool.
    + destruct (proj1 (Forall_forall _ _) Hseq _ Hr) as (n & Hn & Hlt).
      exists n. split; [done | lia].
    + apply (list_elem_of_fmap_2 FieldDependency.id) in Hr.
      rewrite assign_ids_ids in Hr.
      apply list_elem_of_fmap in Hr as (m & Hid & Hm).
      apply list_elem_of_In, in_seq in Hm. exists m. split; [done | lia].
Qed.

(** X18: A rebuild keeps every edge in one of its two states: the rows it
    inserts are the constructed edges, resolved without a broken name or
    broken under a name, and routed only via link row fields. *)
Theorem rebuild_keeps_edges_ok
    (field_instance : Field.t) (field_lookup_cache : FieldCache) (db : DB) :
  edges_ok db -> edges_ok (exec (rebuild field_instance field_lookup_cache) db).
Proof.
  intros Hok.
  destruct (rebuild_rows field_instance field_lookup_cache db)
    as [-> | (new_dependencies & Hnew & _ & Hrows & _)]; [done |].
  unfold edges_ok. rewrite Hrows. apply Forall_forall.
  intros r [[Hr | Hr]%elem_of_app _]%elem_of_filter_bool.
  - by apply (proj1 (Forall_forall _ _) Hok).
  - apply elem_of_assign_ids in Hr as (v & m & Hv & _ & ->).
    apply to_create_constructed in Hv.
    assert (Hshape : Forall (fun e => FieldDependency.id e = None
                                      /\ FieldDependency.dependant e = field_instance
                                      /\ edge_ok e = true) new_dependencies).
    { unfold constructed in Hnew.
      destruct (get_field_dependencies field_instance field_lookup_cache) as [descs |].
      - apply (construct_dependencies_shape _ _ _ _ _ Hnew). apply Forall_nil_2.
      - injection Hnew as <-. apply Forall_nil_2. }
    by destruct (proj1 (Forall_forall _ _) Hshape v Hv) as (_ & _ & ?).
Qed.

(** X19: Rebuilding a field that has no outbound edge, a field just created or
    just broken, deletes nothing and appends the constructed edges, one per
    key in the order the keys first come up, under the next primary keys of
    the sequence, provided none of them is refused by the cycle check. *)
Theorem rebuild_from_no_edges
    (field_instance : Field.t) (field_lookup_cache : FieldCache) (db : DB)
    (new_dependencies : list FieldDependency.t) :
  dependencies field_instance db = [] ->
  constructed get_field_dependencies field_instance field_lookup_cache
  = inr new_dependencies ->
  existsb (closes_cycle circular_reference_checker field_instance db)
    (desired new_dependencies) = false ->
  rebuild field_instance field_lookup_cache db
  = (inr tt,
     {| rows := rows db ++ objects.assign_ids (next_id db) (desired new_dependencies);
        next_id := next_id db + length (desired new_dependencies) |}).
Proof.
  intros Hout Hnew Hcheck.
  assert (Hcreate : to_create field_instance db new_dependencies = desired new_dependencies).
  { unfold to_create, desired, dict_values. rewrite Hout. f_equal.
    apply filter_all. intros kv _. apply bool_decide_eq_true_2, not_elem_of_nil. }
  assert (Hdelete : to_delete field_instance db new_dependencies = []).
  { unfold to_delete. by rewrite Hout. }
  rewrite rebuild_field_dependencies_eq, Hnew, Hcreate, Hdelete, Hcheck. simpl.
  f_equal. f_equal. apply filter_all. intros r _.
  first [done | apply negb_true_iff, bool_decide_eq_false_2, not_elem_of_nil].
Qed.
End Rebuild.

Section CircularCheckProperties.
Variable circular_reference_checker :
  list FieldDependency.t -> Field.t -> Field.t -> bool.
Variable get_field_dependencies :
  Field.t -> FieldCache -> option (list Descriptor).

Local Abbreviation rebuild :=
  (rebuild_field_dependencies circular_reference_checker get_field_dependencies).
Local Abbreviation check :=
  (check_for_circular circular_reference_checker get_field_dependencies).

Lemma check_dependencies_passes field_instance cache descs db :
  check_dependencies circular_reference_checker field_instance cache descs db = inr tt
  <-> Forall
        (fun d =>
           exists r, _get_dependency_field d field_instance cache = inr r
                     /\ forall g, r = Some g ->
                                  Field.name field_instance <> Field.name g
                                  /\ circular_reference_checker (rows db) field_instance g
                                     = false)
        descs.
Proof.
  induction descs as [| d descs IH]; simpl.
  - split; [intros _; apply Forall_nil_2 | done].
  - rewrite Forall_cons.
    destruct (_get_dependency_field d field_instance cache) as [e | [g |]] eqn:Hd.
    + split; [done |]. by intros [(r & Hr & _) _].
    + case_bool_decide as Hname.
      * split; [done |]. intros [(r & [= <-] & Hg) _].
        by destruct (Hg g eq_refl).
      * destruct (circular_reference_checker (rows db) field_instance g) eqn:Hcheck.
        -- split; [done |]. intros [(r & [= <-] & Hg) _].
           destruct (Hg g eq_refl) as [_ Hc]. congruence.
        -- rewrite IH. split; [| by intros [_ ?]]. intros Hrest. split; [| done].
           exists (Some g). split; [done |]. by intros ? [= <-].
    + rewrite IH. split; [| by intros [_ ?]]. intros Hrest. split; [| done].
      exists None. split; [done |]. by intros ?.
Qed.

(** X20: The check returns normally exactly when every descriptor of the field
    resolves without error, and every field a descriptor resolves to has a
    name other than the field's and passes the cycle check; a descriptor
    that resolves to nothing is passed over, and so is a field whose type
    yields no descriptor list. *)
Theorem check_for_circular_passes_iff
    (field_instance : Field.t) (field_lookup_cache : FieldCache) (db : DB) :
  check field_instance field_lookup_cache db = inr tt
  <-> forall field_dependencies,
        get_field_dependencies field_instance field_lookup_cache = Some field_dependencies ->
        Forall
          (fun d =>
             exists r,
               _get_dependency_field d field_instance field_lookup_cache = inr r
               /\ forall g, r = Some g ->
                            Field.name field_instance <> Field.name g
                            /\ circular_reference_checker (rows db) field_instance g
                               = false)
          field_dependencies.
Proof.
  unfold check_for_circular.
  destruct (get_field_dependencies field_instance field_lookup_cache) as [descs |].
  - rewrite check_dependencies_passes. split.
    + by intros Hall ? [= <-].
    + intros Hall. by apply Hall.
  - split; [| done]. by intros _ ? [=].
Qed.

Lemma construct_dependency_target field_instance d cache deps e g :
  _construct_dependency field_instance d cache = inr deps ->
  e ∈ deps ->
  FieldDependency.dependency e = Some g ->
  _get_dependency_field d field_instance cache = inr (Some g)
  \/ exists via_field_name dependency,
       d = DTuple via_field_name dependency
       /\ lookup_by_name cache (Field.table field_instance) via_field_name = Some g.
Proof.
  unfold _construct_dependency, _get_dependency_field.
  destruct d as [n | vn n]; simpl; repeat case_match; intros [= <-];
    rewrite ?app_nil_l, ?elem_of_cons, ?elem_of_nil; intros Hin;
    repeat destruct Hin as [Hin | Hin]; subst; simpl; try done;
    intros [= <-]; try (by left); right; eauto.
Qed.

Lemma construct_dependencies_origin field_instance descs cache acc new_dependencies e :
  construct_dependencies field_instance descs cache acc = inr new_dependencies ->
  e ∈ new_dependencies ->
  e ∈ acc
  \/ exists d deps, d ∈ descs
                    /\ _construct_dependency field_instance d cache = inr deps
                    /\ e ∈ deps.
Proof.
  revert acc. induction descs as [| d descs IH]; simpl; intros acc Hc He.
  - injection Hc as <-. by left.
  - destruct (_construct_dependency field_instance d cache) as [x | deps] eqn:Hd; [done |].
    destruct (IH _ Hc He) as [[Hacc | Hdeps]%elem_of_app | (d' & deps' & Hd' & Hc' & He')].
    + by left.
    + right. exists d, deps. split; [by left | done].
    + right. exists d', deps'. split; [by right | done].
Qed.

Lemma construct_dependencies_raises_self_reference field_instance descs cache acc e :
  construct_dependencies field_instance descs cache acc = inl e ->
  e = SelfReferenceFieldDependencyError.
Proof.
  revert acc. induction descs as [| d descs IH]; simpl; intros acc Hc; [done |].
  destruct (_construct_dependency field_instance d cache) as [x | deps] eqn:Hd.
  - injection Hc as <-. by apply (construct_dependency_raises_only_self_reference _ _ _ _ Hd).
  - by apply (IH _ Hc).
Qed.

(** X21: The check vouches for the rebuild up to the companion edges: when the
    check returns normally, and no field named as via of a pair is refused
    by the cycle check, the rebuild does not raise
    [CircularFieldDependencyError]. *)
Theorem check_for_circular_vouches_for_rebuild
    (field_instance : Field.t) (field_lookup_cache : FieldCache) (db : DB) :
  check field_instance field_lookup_cache db = inr tt ->
  (forall field_dependencies via_field_name dependency via_field,
      get_field_dependencies field_instance field_lookup_cache = Some field_dependencies ->
      DTuple via_field_name dependency ∈ field_dependencies ->
      lookup_by_name field_lookup_cache (Field.table field_instance) via_field_name
      = Some via_field ->
      circular_reference_checker (rows db) field_instance via_field = false) ->
  run (rebuild field_instance field_lookup_cache) db <> inl CircularFieldDependencyError.
Proof.
  intros Hcheck Hvias. unfold run. rewrite rebuild_field_dependencies_eq.
  destruct (constructed _ _ _) as [e | new_dependencies] eqn:Hnew.
  - simpl. intros [= ->]. unfold constructed in Hnew.
    destruct (get_field_dependencies field_instance field_lookup_cache) as [descs |];
      [| done].
    by apply construct_dependencies_raises_self_reference in Hnew.
  - destruct (existsb _ _) eqn:Hex; [| done]. exfalso.
    apply existsb_exists in Hex as (v & Hv & Hcycle).
    apply list_elem_of_In, elem_of_to_create in Hv as [Hv _].
    apply elem_of_dict_comprehension in Hv as [Hv _].
    unfold closes_cycle in Hcycle.
    destruct (FieldDependency.dependency v) as [g |] eqn:Hg; [| done].
    unfold constructed in Hnew. unfold check_for_circular in Hcheck.
    destruct (get_field_dependencies field_instance field_lookup_cache) as [descs |];
      [| injection Hnew as <-; by apply elem_of_nil in Hv].
    destruct (construct_dependencies_origin _ _ _ _ _ _ Hnew Hv)
      as [Hnil | (d & deps & Hd & Hc & He)]; [by apply elem_of_nil in Hnil |].
    destruct (construct_dependency_target _ _ _ _ _ _ Hc He Hg)
      as [Hget | (vn & n & -> & Hvia)].
    + apply check_dependencies_passes in Hcheck.
      destruct (proj1 (Forall_forall _ _) Hcheck d Hd) as (r & Hr & Hok).
      rewrite Hget in Hr. injection Hr as <-.
      destruct (Hok g eq_refl) as [_ Hfalse]. congruence.
    + rewrite (Hvias descs vn n g eq_refl Hd Hvia) in Hcycle. done.
Qed.

(** X22: The check and the constructor resolve a descriptor alike: unless the
    descriptor is the bare name of the field itself, the field the check
    examines is the target of a constructed edge, and a descriptor the
    check passes over as unresolved gives a single broken edge. *)
Theorem check_and_constructor_resolve_alike
    (field_instance : Field.t) (d : Descriptor) (field_lookup_cache : FieldCache)
    (r : option Field.t) :
  d <> DName (Field.name field_instance) ->
  _get_dependency_field d field_instance field_lookup_cache = inr r ->
  exists deps,
    _construct_dependency field_instance d field_lookup_cache = inr deps
    /\ match r with
       | Some g => exists e, e ∈ deps /\ FieldDependency.dependency e = Some g
       | None => exists e, deps = [e] /\ FieldDependency.dependency e = None
       end.
Proof.
  intros Hself. unfold _construct_dependency, _get_dependency_field.
  destruct d as [n | vn n]; simpl.
  - rewrite andb_true_r. rewrite bool_decide_eq_false_2 by congruence.
    intros [= <-].
    destruct (lookup_by_name field_lookup_cache (Field.table field_instance) n) as [g |];
      eexists; (split; [reflexivity |]); eexists; split;
      first [by apply list_elem_of_singleton | reflexivity].
  - rewrite andb_false_r.
    destruct (lookup_by_name field_lookup_cache (Field.table field_instance) vn) as [v |].
    + destruct (Field.link_row_table v) as [t |]; [| done]. intros [= <-].
      destruct (lookup_by_name field_lookup_cache t n) as [g |].
      * eexists. split; [reflexivity |]. eexists.
        split; [apply elem_of_app; right; apply list_elem_of_singleton |]; reflexivity.
      * eexists. split; [reflexivity |]. eexists. by split.
    + intros [= <-]. eexists. split; [reflexivity |]. eexists. by split.
Qed.

(** X23: The check is stricter than the constructor on names: a pair whose
    target carries the name of the field itself makes the check fail,
    while the constructor raises on no pair. *)
Theorem check_for_circular_rejects_same_name_target
    (field_instance : Field.t) (field_lookup_cache : FieldCache) (db : DB)
    (field_dependencies : list Descriptor) (via_field_name dependency : string)
    (g : Field.t) :
  get_field_dependencies field_instance field_lookup_cache = Some field_dependencies ->
  DTuple via_field_name dependency ∈ field_dependencies ->
  _get_dependency_field (DTuple via_field_name dependency) field_instance
    field_lookup_cache = inr (Some g) ->
  Field.name g = Field.name field_instance ->
  check field_instance field_lookup_cache db <> inr tt
  /\ exists deps,
       _construct_dependency field_instance (DTuple via_field_name dependency)
         field_lookup_cache = inr deps.
Proof.
  intros Hdescs Hin Hget Hname. split.
  - unfold check_for_circular. rewrite Hdescs. intros Hok.
    apply check_dependencies_passes in Hok.
    destruct (proj1 (Forall_forall _ _) Hok _ Hin) as (r & Hr & Hg).
    rewrite Hget in Hr. injection Hr as <-.
    destruct (Hg g eq_refl) as [Hne _]. by apply Hne.
  - unfold _construct_dependency. simpl. rewrite andb_false_r.
    repeat case_match; eauto.
Qed.
End CircularCheckProperties.

(** ** The further properties on the fixtures *)

Lemma cache_of_fields_table (fields : list Field.t) (t : nat) (n : string) (f : Field.t) :
  lookup_by_name (cache_of_fields fields) t n = Some f -> Field.table f = t.
Proof.
  simpl. intros [_ Hf]%find_some. apply andb_prop in Hf as [Ht _].
  by apply bool_decide_eq_true_1 in Ht.
Qed.

Lemma constructed_edges_are_well_formed_witness :
  Forall (fun e => FieldDependency.id e = None
                   /\ FieldDependency.dependant e = lookup_field
                   /\ edge_ok e = true)
    [FieldDependency.new lookup_field (Some link_row_field) None None;
     FieldDependency.new lookup_field (Some target_field) (Some link_row_field) None].
Proof.
  apply (constructed_edges_are_well_formed (descriptors_by_id linked_registry)
           lookup_field linked_cache).
  reflexivity.
Defined.

Lemma construct_dependency_one_or_two_witness :
  (exists e,
      [FieldDependency.new lookup_field (Some link_row_field) None None;
       FieldDependency.new lookup_field (Some target_field) (Some link_row_field) None]
      = [e])
  \/ (exists via_field target,
        [FieldDependency.new lookup_field (Some link_row_field) None None;
         FieldDependency.new lookup_field (Some target_field) (Some link_row_field) None]
        = [FieldDependency.new lookup_field (Some via_field) None None;
           FieldDependency.new lookup_field (Some target) (Some via_field) None]
        /\ Field.id lookup_field <> Field.id via_field
        /\ Field.isinstance_LinkRowField via_field = true).
Proof.
  apply (construct_dependency_one_or_two lookup_field (DTuple "link" "target") linked_cache).
  reflexivity.
Defined.

Lemma construct_dependency_via_edge_witness :
  exists via_field_name dependency link_row_table,
    DTuple "link" "missing" = DTuple via_field_name dependency
    /\ lookup_by_name linked_cache (Field.table lookup_field) via_field_name
       = Some link_row_field
    /\ Field.link_row_table link_row_field = Some link_row_table
    /\ None = lookup_by_name linked_cache link_row_table dependency
    /\ Some "missing"%string = Some dependency.
Proof.
  apply (construct_dependency_via_edge lookup_field (DTuple "link" "missing") linked_cache
           [FieldDependency.new lookup_field None (Some link_row_field)
              (Some "missing"%string)]
           (FieldDependency.new lookup_field None (Some link_row_field)
              (Some "missing"%string))
           link_row_field).
  - reflexivity.
  - by_computation.
  - reflexivity.
Defined.

Lemma construct_dependency_lone_edge_across_tables_witness :
  exists v,
    Some link_row_field = Some v
    /\ Field.id v = Field.id link_row_field
    /\ Field.link_row_table v = Some (Field.table other_primary_field).
Proof.
  apply (construct_dependency_lone_edge_across_tables link_row_field
           (DTuple "link" "primary") linked_cache
           (FieldDependency.new link_row_field (Some other_primary_field)
              (Some link_row_field) None)
           other_primary_field).
  - apply cache_of_fields_table.
  - reflexivity.
  - reflexivity.
  - vm_compute. lia.
Defined.

Lemma break_keeps_edges_ok_witness :
  edges_ok (exec (break_dependencies_for_field link_row_field) trash_db).
Proof.
  apply (break_keeps_edges_ok link_row_field trash_db).
  unfold edges_ok. vm_compute. repeat constructor.
Defined.

Lemma repair_without_match_changes_nothing_witness :
  update_fields_with_broken_references reachability_checker other_field
    lookup_db_link_trashed
  = (inr false, lookup_db_link_trashed).
Proof.
  apply (repair_without_match_changes_nothing reachability_checker other_field
           lookup_db_link_trashed).
  intros r Hr. vm_compute in Hr.
  repeat (apply elem_of_cons in Hr as [-> | Hr]; [reflexivity |]).
  by apply elem_of_nil in Hr.
Defined.

Lemma repair_keeps_edges_ok_witness :
  edges_ok (exec (update_fields_with_broken_references reachability_checker link_row_field)
              lookup_db_link_trashed).
Proof.
  apply (repair_keeps_edges_ok reachability_checker link_row_field lookup_db_link_trashed).
  unfold edges_ok. vm_compute. repeat constructor.
Defined.

Lemma rebuild_leaves_other_fields_alone_witness :
  List.filter (fun r => negb (in_dependencies third_formula_field r))
    (rows (exec (rebuild_fixture formula_registry third_formula_field formula_cache)
             formula_db))
  = List.filter (fun r => negb (in_dependencies third_formula_field r)) (rows formula_db).
Proof.
  apply (rebuild_leaves_other_fields_alone reachability_checker
           (descriptors_by_id formula_registry) third_formula_field formula_cache
           formula_db).
  unfold pk_unique. by_computation.
Defined.

Lemma rebuild_leaves_no_stale_edge_witness :
  exists new_dependencies,
    constructed (descriptors_by_id linked_registry) text_field linked_cache
    = inr new_dependencies
    /\ forall r,
         r ∈ dependencies text_field
               (exec (rebuild_fixture linked_registry text_field linked_cache) trash_db) ->
         FieldDependency.str r ∈ FieldDependency.str <$> new_dependencies.
Proof.
  apply (rebuild_leaves_no_stale_edge reachability_checker
           (descriptors_by_id linked_registry) text_field linked_cache trash_db).
  - by_computation.
  - reflexivity.
Defined.

Lemma rebuild_provides_every_constructed_edge_witness :
  exists new_dependencies,
    constructed (descriptors_by_id formula_registry) third_formula_field formula_cache
    = inr new_dependencies
    /\ forall e,
         e ∈ new_dependencies ->
         FieldDependency.str e
         ∈ FieldDependency.str
             <$> dependencies third_formula_field
                   (exec (rebuild_fixture formula_registry third_formula_field
                            formula_cache) formula_db).
Proof.
  apply (rebuild_provides_every_constructed_edge reachability_checker
           (descriptors_by_id formula_registry) third_formula_field formula_cache
           formula_db).
  - unfold pk_unique. by_computation.
  - unfold pk_below_sequence. vm_compute.
    repeat constructor. exists 1. split; [reflexivity | lia].
  - reflexivity.
Defined.

Lemma rebuild_without_descriptors_clears_witness :
  run (rebuild_fixture linked_registry text_field linked_cache) trash_db = inr tt
  /\ dependencies text_field
       (exec (rebuild_fixture linked_registry text_field linked_cache) trash_db) = [].
Proof.
  apply (rebuild_without_descriptors_clears reachability_checker
           (descriptors_by_id linked_registry) text_field linked_cache trash_db).
  - by_computation.
  - left. reflexivity.
Defined.

Lemma rebuild_keeps_primary_keys_witness :
  pk_unique (exec (rebuild_fixture linked_registry target_field linked_cache) lookup_db)
  /\ pk_below_sequence
       (exec (rebuild_fixture linked_registry target_field linked_cache) lookup_db).
Proof.
  apply (rebuild_keeps_primary_keys reachability_checker
           (descriptors_by_id linked_registry) target_field linked_cache lookup_db).
  - unfold pk_unique. by_computation.
  - unfold pk_below_sequence. vm_compute.
    repeat constructor; eexists; (split; [reflexivity | lia]).
Defined.

Lemma rebuild_keeps_edges_ok_witness :
  edges_ok (exec (rebuild_fixture linked_registry lookup_field cache_without_link)
              lookup_db_link_trashed).
Proof.
  apply (rebuild_keeps_edges_ok reachability_checker (descriptors_by_id linked_registry)
           lookup_field cache_without_link lookup_db_link_trashed).
  unfold edges_ok. vm_compute. repeat constructor.
Defined.

(** The link row field, broken and then rebuilt. *)
Lemma rebuild_from_no_edges_witness :
  let db := exec (break_dependencies_for_field link_row_field) trash_db in
  rebuild_fixture linked_registry link_row_field linked_cache db
  = (inr tt,
     {| rows :=
          rows db
          ++ [FieldDependency.mk (Some 4) link_row_field (Some other_primary_field)
                (Some link_row_field) None];
        next_id := 5 |}).
Proof.
  apply (rebuild_from_no_edges reachability_checker (descriptors_by_id linked_registry)
           link_row_field linked_cache
           (exec (break_dependencies_for_field link_row_field) trash_db)
           [FieldDependency.new link_row_field (Some other_primary_field)
              (Some link_row_field) None]);
    reflexivity.
Defined.

Lemma check_for_circular_vouches_for_rebuild_witness :
  run (rebuild_fixture linked_registry lookup_field linked_cache) empty_db
  <> inl CircularFieldDependencyError.
Proof.
  apply (check_for_circular_vouches_for_rebuild reachability_checker
           (descriptors_by_id linked_registry) lookup_field linked_cache empty_db).
  - reflexivity.
  - intros descs vn n vf [= <-] Hin Hvia.
    apply list_elem_of_singleton in Hin. injection Hin as -> ->.
    vm_compute in Hvia. injection Hvia as <-. reflexivity.
Defined.

Lemma check_and_constructor_resolve_alike_witness :
  exists deps,
    _construct_dependency lookup_field (DTuple "link" "target") linked_cache = inr deps
    /\ exists e, e ∈ deps /\ FieldDependency.dependency e = Some target_field.
Proof.
  apply (check_and_constructor_resolve_alike lookup_field (DTuple "link" "target")
           linked_cache (Some target_field)).
  - discriminate.
  - reflexivity.
Defined.

Lemma check_for_circular_rejects_same_name_target_witness :
  check_for_circular reachability_checker (descriptors_by_id namesake_registry)
    namesake_lookup_field linked_cache empty_db <> inr tt
  /\ exists deps,
       _construct_dependency namesake_lookup_field (DTuple "link" "target") linked_cache
       = inr deps.
Proof.
  apply (check_for_circular_rejects_same_name_target reachability_checker
           (descriptors_by_id namesake_registry) namesake_lookup_field linked_cache
           empty_db [DTuple "link" "target"] "link" "target" target_field).
  - reflexivity.
  - by_computation.
  - reflexivity.
  - reflexivity.
Defined.
